(** * displaySpinnakerFramesOpenCV: noise frames, an OpenCV preview window
      and a frames-per-second counter

    A shallow embedding of [displaySpinnakerFramesOpenCV.cpp].  The program
    is one loop: it fills the global array [img_raw] with [rand() % 255],
    wraps the array in a [Mat] header, shows it with [imshow]/[waitKey], and
    once the steady clock has moved more than a second past the last report
    prints the number of frames counted since then.

    What the program takes from outside is collected in an environment
    [Env]: the values returned by successive calls of [rand()], the readings
    of successive calls of [steady_clock::now()], and writes to the global
    flag [streaming] made from outside the loop.  The machine state is the
    record [World]. *)

From stdpp Require Import base numbers list option strings gmap.

Local Open Scope Z_scope.

(** ** Machine integers *)

Module CInt.

(** [int] and [uint] are 32 bits wide and [uint8_t] 8 bits wide.  C++
    leaves the overflow of an [int] undefined; the model writes out the
    two's complement wrap-around of the targets the program is built
    for. *)
Definition INT_MAX : Z := 2147483647.
Definition INT_MIN : Z := -2147483648.
Definition UINT_MAX : Z := 4294967295.

Definition to_int (z : Z) : Z := (z + 2147483648) mod 4294967296 - 2147483648.
Definition to_uint (z : Z) : Z := z mod 4294967296.
Definition to_uint8 (z : Z) : Z := z mod 256.

(** [a * b] and [a % b] on [int]; [%] truncates towards zero. *)
Definition int_mul (a b : Z) : Z := to_int (a * b).
Definition int_rem (a b : Z) : Z := to_int (Z.rem a b).

(** [x++] on [int] and on [uint]. *)
Definition int_incr (x : Z) : Z := to_int (x + 1).
Definition uint_incr (x : Z) : Z := to_uint (x + 1).

(** The steady clock counts nanoseconds in a signed 64-bit integer; as for
    [int], the wrap-around of an overflow is written out. *)
Definition INT64_MAX : Z := 9223372036854775807.
Definition INT64_MIN : Z := -9223372036854775808.

Definition to_int64 (z : Z) : Z :=
  (z + 9223372036854775808) mod 18446744073709551616 - 9223372036854775808.

End CInt.
Import CInt.

(** ** Constants of the program *)

(** Number of nanoseconds in a second. *)
Definition ns_per_second : Z := 1000000000.
(** Dimensions of the image. *)
Definition cols : Z := 1000.
Definition rows : Z := 400.
(** OpenCV's type code of an 8-bit single-channel matrix. *)
Definition CV_8UC1 : Z := 0.
Definition window_title : string := "PtGrey Live Feed".

#[global] Arguments cols : simpl never.
#[global] Arguments rows : simpl never.

(** [duration_cast<nanoseconds>(now - last).count()]: the time from the
    reading [last] to the reading [now] as the program measures it, the
    difference of two 64-bit counts of nanoseconds. *)
Definition elapsed_ns (now last : Z) : Z := to_int64 (now - last).

(** ** Environment *)

Record Env : Type := mkEnv {
  (** value returned by the [k]-th call of [rand()] *)
  env_rand : N -> Z;
  (** reading of the [k]-th call of [steady_clock::now()], in nanoseconds,
      a value of the clock's 64-bit count *)
  env_now : N -> Z;
  (** value written to [streaming] from outside while iteration [k] runs,
      if any *)
  env_streaming : N -> option bool;
}.

(** ** Machine state *)

(** What a window shows: the pixels [imshow] copied to it. *)
Record Frame : Type := mkFrame {
  frame_rows : Z;
  frame_cols : Z;
  frame_pixels : list Z;
}.

(** The two pixel stores of the program: the static array [img_raw], and the
    pixels the global [Mat img(rows, cols, CV_8UC1)] allocates for itself. *)
Inductive ptr : Type := addr_img_raw | addr_img_data.

(** A [Mat] header: dimensions, element type and a pointer to the first
    pixel.  It holds no pixels of its own. *)
Record Mat : Type := mkMat {
  mat_rows : Z;
  mat_cols : Z;
  mat_type : Z;
  mat_data : ptr;
}.

(** The frame counter of the loop. *)
Record RateCounter : Type := mkRateCounter {
  time_of_last_fps_calculation : Z;
  frames_since_last_fps_calculation : Z;
}.

Record World : Type := mkWorld {
  (** [uint8_t img_raw[cols*rows]] *)
  img_raw : list Z;
  (** pixels owned by the global [img] *)
  img_data : list Z;
  (** [bool streaming] *)
  streaming : bool;
  counter : RateCounter;
  (** calls of [rand()] and of [now()] made so far *)
  rand_calls : N;
  clock_calls : N;
  (** loop iterations completed so far *)
  frame_no : N;
  (** windows by title, with what each one shows *)
  windows : gmap string (option Frame);
  (** every frame handed to [imshow], oldest first *)
  shown : list (string * Frame);
  (** the integers printed after ["FPS: "], one per line, oldest first *)
  console : list Z;
  (** every write to [img_raw] as (index, value), oldest first *)
  stores : list (Z * Z);
}.

Definition with_img_raw (b : list Z) (st : list (Z * Z)) (w : World) : World :=
  mkWorld b (img_data w) (streaming w) (counter w) (rand_calls w)
          (clock_calls w) (frame_no w) (windows w) (shown w) (console w) st.

Definition with_rand_calls (n : N) (w : World) : World :=
  mkWorld (img_raw w) (img_data w) (streaming w) (counter w) n
          (clock_calls w) (frame_no w) (windows w) (shown w) (console w)
          (stores w).

Definition with_display (ws : gmap string (option Frame))
    (sh : list (string * Frame)) (w : World) : World :=
  mkWorld (img_raw w) (img_data w) (streaming w) (counter w) (rand_calls w)
          (clock_calls w) (frame_no w) ws sh (console w) (stores w).

Definition with_monitor (c : RateCounter) (k : N) (out : list Z) (w : World)
    : World :=
  mkWorld (img_raw w) (img_data w) (streaming w) c (rand_calls w)
          k (frame_no w) (windows w) (shown w) out (stores w).

Definition with_streaming (b : bool) (n : N) (w : World) : World :=
  mkWorld (img_raw w) (img_data w) b (counter w) (rand_calls w)
          (clock_calls w) n (windows w) (shown w) (console w) (stores w).

(** ** Outcomes *)

(** A computation ends with a result, runs into undefined behaviour (an
    access outside an array), or is still running when the steps granted to
    it are used up. *)
Inductive outcome (A : Type) : Type :=
| Done (a : A)
| Undefined
| Running.
Arguments Done {A} a.
Arguments Undefined {A}.
Arguments Running {A}.

#[global] Instance outcome_ret : MRet outcome := fun A a => Done a.
#[global] Instance outcome_bind : MBind outcome := fun A B f m =>
  match m with
  | Done a => f a
  | Undefined => Undefined
  | Running => Running
  end.

(** ** The program *)

Section Program.

Context (E : Env).

(** *** Frame source *)

(** [rand()] *)
Definition rand (w : World) : Z * World :=
  (env_rand E (rand_calls w), with_rand_calls (N.succ (rand_calls w)) w).

(** [img_raw[i] = v]: a write outside the array is undefined. *)
Definition store (i v : Z) (w : World) : outcome World :=
  if (0 <=? i) && (i <? Z.of_nat (length (img_raw w))) then
    Done (with_img_raw (<[Z.to_nat i := v]> (img_raw w))
                       (stores w ++ [(i, v)]) w)
  else Undefined.

(** The pixel made from one draw: [rand() % 255] converted to [uint8_t]. *)
Definition noise (r : Z) : Z := to_uint8 (int_rem r 255).

(** [img_raw[i] = rand() % 255;] *)
Definition fill_body (i : Z) (w : World) : outcome World :=
  let (r, w1) := rand w in store i (noise r) w1.

(** [for(uint i = ...; i < bound; i++) img_raw[i] = rand() % 255;] from
    the current value [i] of the loop variable on. *)
Fixpoint fill_loop (fuel : nat) (bound i : Z) (w : World) : outcome World :=
  match fuel with
  | O => Running
  | S fuel' =>
      if i <? bound then
        w' ← fill_body i w; fill_loop fuel' bound (uint_incr i) w'
      else Done w
  end.

(** The frame generation loop for an image of [width] by [height] pixels.
    The bound [width*height] is an [int], converted to [uint] for the
    comparison with [i]. *)
Definition fill (width height : Z) (w : World) : outcome World :=
  let bound := to_uint (int_mul width height) in
  fill_loop (S (Z.to_nat bound)) bound 0 w.

(** *** Display sink *)

(** The pixels a data pointer refers to. *)
Definition load (p : ptr) (w : World) : list Z :=
  match p with
  | addr_img_raw => img_raw w
  | addr_img_data => img_data w
  end.

(** Modelled from the spec: [namedWindow] is OpenCV's, its code is not part
    of the sources.  [namedWindow(title, WINDOW_AUTOSIZE)] creates the
    named on-screen surface unless it exists. *)
Definition namedWindow (title : string) (w : World) : World :=
  match windows w !! title with
  | Some _ => w
  | None => with_display (<[title := None]> (windows w)) (shown w) w
  end.

(** Modelled from the spec: [imshow] is OpenCV's, its code is not part of
    the sources.  [imshow(title, m)] renders the image the header describes,
    the [mat_rows m * mat_cols m] pixels behind it, to the named on-screen
    surface, creating the surface on first use and reusing it thereafter;
    it changes the pixels on the screen and is otherwise pure with respect
    to the program's state.  The header never reads outside the pixels it
    is built over: reading past the end of the store behind the pointer is
    undefined. *)
Definition imshow (title : string) (m : Mat) (w : World) : outcome World :=
  let n := mat_rows m * mat_cols m in
  let buf := load (mat_data m) w in
  if n <=? Z.of_nat (length buf) then
    let f := mkFrame (mat_rows m) (mat_cols m) (take (Z.to_nat n) buf) in
    Done (with_display (<[title := Some f]> (windows w))
                       (shown w ++ [(title, f)]) w)
  else Undefined.

(** Modelled from the spec: [waitKey] is OpenCV's, its code is not part of
    the sources.  [waitKey(delay)] is the small bounded wait for input and
    redraw events of each call, at most [delay] milliseconds.  The key code
    it returns is dropped by the program; nothing of the program's state
    changes. *)
Definition waitKey (delay : Z) (w : World) : World := w.

(** Showing a frame: [imshow] followed by [waitKey(1)]. *)
Definition present (view : Mat) (title : string) (w : World)
    : outcome World :=
  w1 ← imshow title view w; mret (waitKey 1 w1).

(** *** Rate monitor *)

(** The end of the loop body, on the counter [c] when [k] calls of [now()]
    have been made: the new counter, the new number of calls and the
    number printed, if any.  In the reporting branch the clock is read a
    second time. *)
Definition fps_tick (c : RateCounter) (k : N) : RateCounter * N * option Z :=
  let current_time := env_now E k in
  let diff_ns := elapsed_ns current_time (time_of_last_fps_calculation c) in
  if diff_ns >? ns_per_second then
    (mkRateCounter (env_now E (N.succ k)) 0,
     N.succ (N.succ k),
     Some (frames_since_last_fps_calculation c))
  else
    (mkRateCounter (time_of_last_fps_calculation c)
                   (int_incr (frames_since_last_fps_calculation c)),
     N.succ k,
     None).

Definition printed (r : option Z) : list Z :=
  match r with Some n => [n] | None => [] end.

Definition update_fps (w : World) : World :=
  let '(c, k, r) := fps_tick (counter w) (clock_calls w) in
  with_monitor c k (console w ++ printed r) w.

(** [n] ticks of the monitor in a row, with the numbers they print. *)
Definition tick_acc (s : RateCounter * N * list Z) : RateCounter * N * list Z :=
  let '(c, k, out) := s in
  let '(c', k', r) := fps_tick c k in (c', k', out ++ printed r).

Definition fps_ticks (n : N) (c : RateCounter) (k : N)
    : RateCounter * N * list Z :=
  N.iter n tick_acc (c, k, []).

(** *** The loop *)

(** One pass through the body of [while(streaming)]. *)
Definition iteration (w : World) : outcome World :=
  w1 ← fill cols rows w;
  let img := mkMat rows cols CV_8UC1 addr_img_raw in
  w2 ← present img window_title w1;
  mret (update_fps w2).

(** Between two passes: a write to [streaming] from outside, if there was
    one during the pass, has taken effect. *)
Definition end_of_iteration (w : World) : World :=
  with_streaming (default (streaming w) (env_streaming E (frame_no w)))
                 (N.succ (frame_no w)) w.

(** [while(streaming) { ... }], for at most [fuel] tests of the flag. *)
Fixpoint while_streaming (fuel : nat) (w : World) : outcome World :=
  match fuel with
  | O => Running
  | S fuel' =>
      if streaming w then
        w' ← iteration w; while_streaming fuel' (end_of_iteration w')
      else Done w
  end.

(** The state when [main] is entered: [img_raw] is zero-initialised,
    the pixels of the global [img] are whatever the allocation holds. *)
Definition boot (heap : list Z) : World :=
  mkWorld (replicate (Z.to_nat (cols * rows)) 0) heap true
          (mkRateCounter 0 0) 0 0 0 ∅ [] [] [].

(** The statements of [main] before the loop: the window is created, the
    clock is read for the first time and the tally starts at [0].
    [srand(time(NULL))] settles which draws [rand()] will return; they are
    the draws [env_rand E]. *)
Definition setup (heap : list Z) : World :=
  let w := namedWindow window_title (boot heap) in
  with_monitor (mkRateCounter (env_now E (clock_calls w)) 0)
               (N.succ (clock_calls w)) (console w) w.

(** [main]: the exit code and the final state. *)
Definition main (fuel : nat) (heap : list Z) : outcome (Z * World) :=
  w ← while_streaming fuel (setup heap); mret (0, w).

(** *** The loop with the image header built once *)

(** The variant the specification allows: the header over [img_raw] is
    built before the loop and the same header is shown in every pass. *)
Definition iteration_hoisted (img : Mat) (w : World) : outcome World :=
  w1 ← fill cols rows w;
  w2 ← present img window_title w1;
  mret (update_fps w2).

Fixpoint while_streaming_hoisted (img : Mat) (fuel : nat) (w : World)
    : outcome World :=
  match fuel with
  | O => Running
  | S fuel' =>
      if streaming w then
        w' ← iteration_hoisted img w;
        while_streaming_hoisted img fuel' (end_of_iteration w')
      else Done w
  end.

Definition main_hoisted (fuel : nat) (heap : list Z) : outcome (Z * World) :=
  let w0 := setup heap in
  let img := mkMat rows cols CV_8UC1 addr_img_raw in
  w ← while_streaming_hoisted img fuel w0; mret (0, w).

End Program.

(** What can be observed of a run: the frames shown, the lines printed and
    the exit code. *)
Definition observable (r : outcome (Z * World))
    : outcome (list (string * Frame) * list Z * Z) :=
  '(code, w) ← r; mret (shown w, console w, code).

(** ** Vocabulary of the statements *)

(** [rand()] returns an [int] between [0] and [RAND_MAX]; [RAND_MAX] is an
    [int] itself. *)
Definition rand_in_range (E : Env) : Prop :=
  forall k, 0 <= env_rand E k <= INT_MAX.

(** The pixels made from the draws number [c], [c+1], ..., [c+k-1]. *)
Definition draws (E : Env) (c : N) (k : nat) : list Z :=
  (fun j => noise (env_rand E (c + N.of_nat j))) <$> seq 0 k.

(** The state in which the fill loop ends when it starts at index [i] with
    [k] pixels to go. *)
Definition filled (E : Env) (i : Z) (k : nat) (w : World) : World :=
  with_img_raw
    (take (Z.to_nat i) (img_raw w) ++ draws E (rand_calls w) k
       ++ drop (Z.to_nat i + k) (img_raw w))
    (stores w ++ zip (seqZ i (Z.of_nat k)) (draws E (rand_calls w) k))
    (with_rand_calls (rand_calls w + N.of_nat k) w).

(** Everything in the state but the display. *)
Definition program_state (w : World) :=
  (img_raw w, img_data w, streaming w, counter w, rand_calls w,
   clock_calls w, frame_no w, console w, stores w).

(** How many of the draws [0], ..., [rand_max] make the pixel [v]. *)
Definition occurrences (rand_max v : Z) : nat :=
  length (filter (fun r => noise r = v) (seqZ 0 (rand_max + 1))).

(** At most [n] passes through the loop: the state at the boundary reached,
    also when the loop is still going. *)
Fixpoint passes (E : Env) (n : nat) (w : World) : outcome World :=
  match n with
  | O => Done w
  | S n' =>
      if streaming w then
        w' ← iteration E w; passes E n' (end_of_iteration E w')
      else Done w
  end.

(** A frame of [rows] by [cols] pixels, all of them there. *)
Definition full_frame (f : Frame) : Prop :=
  frame_rows f = rows /\ frame_cols f = cols /\
  length (frame_pixels f) = Z.to_nat (cols * rows).

(** [img_raw] has the size it is declared with. *)
Definition buffer_ok (w : World) : Prop :=
  length (img_raw w) = Z.to_nat (cols * rows).

(** The frame the header of the loop body describes, and the state once it
    is on the screen. *)
Definition shown_frame (w : World) : Frame :=
  mkFrame rows cols (take (Z.to_nat (rows * cols)) (img_raw w)).

Definition displayed (w : World) : World :=
  with_display (<[window_title := Some (shown_frame w)]> (windows w))
               (shown w ++ [(window_title, shown_frame w)]) w.

(** The state one pass through the loop leads to, when [img_raw] has its
    declared size. *)
Definition pass (E : Env) (w : World) : World :=
  end_of_iteration E
    (update_fps E (displayed (filled E 0 (Z.to_nat (cols * rows)) w))).

(** The sum of the numbers printed. *)
Definition total (l : list Z) : Z := foldr Z.add 0 l.

(** The bookkeeping of the frame counter: no number printed is negative,
    and the numbers printed, the current tally and one for every report
    add up to the passes made. *)
Definition tally_adds_up (w : World) : Prop :=
  0 <= frames_since_last_fps_calculation (counter w) /\
  Forall (fun v => 0 <= v) (console w) /\
  total (console w) + frames_since_last_fps_calculation (counter w)
  = Z.of_N (frame_no w) - Z.of_nat (length (console w)).

(** The values written to [img_raw] so far are the pixels of the draws made
    so far, in their order. *)
Definition writes_are_draws (E : Env) (w : World) : Prop :=
  (stores w).*2 = draws E 0 (length (stores w)) /\
  rand_calls w = N.of_nat (length (stores w)).

(** The steady clock never goes back; and a clock that has moved on
    whenever it is read again. *)
Definition clock_monotone (E : Env) : Prop :=
  forall j, env_now E j <= env_now E (N.succ j).

Definition clock_advances (E : Env) : Prop :=
  forall j, env_now E j < env_now E (N.succ j).

(** The frame made of the draws of pass number [j], the first pass being
    number [0]: every pass makes [cols * rows] draws. *)
Definition frame_of_pass (E : Env) (j : nat) : Frame :=
  mkFrame rows cols
          (draws E (N.of_nat j * 400000) (Z.to_nat (cols * rows))).

(** The state with other pixels behind the global [img]. *)
Definition with_img_data (h : list Z) (w : World) : World :=
  mkWorld (img_raw w) h (streaming w) (counter w) (rand_calls w)
          (clock_calls w) (frame_no w) (windows w) (shown w) (console w)
          (stores w).

(** The tally is covered by the nanoseconds the clock has moved since the
    last report, which are a second at most; the numbers printed were such
    tallies; and the numbers printed, the tally and the reports add up to
    the passes made. *)
Definition tally_within_second (E : Env) (w : World) : Prop :=
  (1 <= clock_calls w)%N /\
  0 <= frames_since_last_fps_calculation (counter w)
    <= env_now E (N.pred (clock_calls w))
       - time_of_last_fps_calculation (counter w) /\
  env_now E (N.pred (clock_calls w))
    - time_of_last_fps_calculation (counter w) <= ns_per_second /\
  Forall (fun v => 0 <= v <= ns_per_second) (console w) /\
  total (console w) + frames_since_last_fps_calculation (counter w)
  = Z.of_N (frame_no w) - Z.of_nat (length (console w)).

(** The pass that starts in [w] counts its frame with the tally at
    [INT_MAX]: the increment overflows. *)
Definition tally_overflows (E : Env) (w : World) : Prop :=
  frames_since_last_fps_calculation (counter w) = INT_MAX /\
  elapsed_ns (env_now E (clock_calls w))
             (time_of_last_fps_calculation (counter w)) <= ns_per_second.

(** ** Environments and states of the examples *)

(** Every draw is [r], every clock reading is [t], nobody writes
    [streaming]. *)
Definition still_env (r t : Z) : Env :=
  mkEnv (fun _ => r) (fun _ => t) (fun _ => None).

(** The clock stands at [0] for the first [n] readings and at two seconds
    from then on. *)
Definition late_env (n : N) : Env :=
  mkEnv (fun _ => 0)
        (fun k => if (k <? n)%N then 0 else 2 * ns_per_second)
        (fun _ => None).

(** The draws run through [0], ..., [32767], the clock moves on by a
    nanosecond with every reading, and the flag is cleared from outside
    during pass [k]. *)
Definition stop_env (k : N) : Env :=
  mkEnv (fun j => Z.of_N j mod 32768) (fun j => Z.of_N j)
        (fun j => if (j =? k)%N then Some false else None).

(** The clock moves on by 0.6 s with every reading: every other pass
    reports. *)
Definition pace_env : Env :=
  mkEnv (fun j => Z.of_N j mod 32768) (fun j => 600000000 * Z.of_N j)
        (fun _ => None).

(** A state with a six-pixel array. *)
Definition small_world : World :=
  mkWorld [10; 20; 30; 40; 50; 60] [] true (mkRateCounter 0 0) 0 0 0 ∅ [] []
          [].

(** ** Machine integers: facts *)

Section CIntFacts.

Lemma to_int_small z : INT_MIN <= z <= INT_MAX -> to_int z = z.
Proof.
  unfold to_int, INT_MIN, INT_MAX. intros Hz.
  rewrite Z.mod_small by lia. lia.
Qed.

Lemma to_uint_small z : 0 <= z <= UINT_MAX -> to_uint z = z.
Proof. unfold to_uint, UINT_MAX. intros Hz. apply Z.mod_small. lia. Qed.

Lemma to_int_range z : INT_MIN <= to_int z <= INT_MAX.
Proof.
  unfold to_int, INT_MIN, INT_MAX.
  pose proof (Z.mod_pos_bound (z + 2147483648) 4294967296). lia.
Qed.

(** Wrapping before or after adding gives the same [int]. *)
Lemma to_int_add_l a b : to_int (to_int a + b) = to_int (a + b).
Proof.
  unfold to_int.
  replace ((a + 2147483648) mod 4294967296 - 2147483648 + b + 2147483648)
    with ((a + 2147483648) mod 4294967296 + b) by lia.
  rewrite Zplus_mod_idemp_l. f_equal. f_equal. lia.
Qed.

Lemma int_incr_small x : INT_MIN <= x < INT_MAX -> int_incr x = x + 1.
Proof. intros Hx. unfold int_incr. apply to_int_small. lia. Qed.

Lemma int_mul_small a b :
  INT_MIN <= a * b <= INT_MAX -> int_mul a b = a * b.
Proof. apply to_int_small. Qed.

Lemma uint_incr_small x : 0 <= x < UINT_MAX -> uint_incr x = x + 1.
Proof. intros Hx. unfold uint_incr. apply to_uint_small. lia. Qed.

(** [rand() % 255] on a draw that [rand()] can return. *)
Lemma noise_spec r :
  0 <= r <= INT_MAX -> noise r = r mod 255 /\ 0 <= noise r <= 254.
Proof.
  intros Hr. unfold noise, int_rem, to_uint8.
  rewrite Z.rem_mod_nonneg by lia.
  pose proof (Z.mod_pos_bound r 255).
  rewrite to_int_small by (unfold INT_MIN, INT_MAX in *; lia).
  rewrite Z.mod_small by lia. lia.
Qed.

End CIntFacts.

(** ** Frame source: facts *)

Section FillFacts.

Context (E : Env).

Lemma store_in_bounds i v w :
  0 <= i < Z.of_nat (length (img_raw w)) ->
  store i v w = Done (with_img_raw (<[Z.to_nat i := v]> (img_raw w))
                                   (stores w ++ [(i, v)]) w).
Proof.
  intros Hi. unfold store.
  destruct (Z.leb_spec 0 i); [|lia].
  destruct (Z.ltb_spec i (Z.of_nat (length (img_raw w)))); [|lia].
  reflexivity.
Qed.

Lemma store_out_of_bounds i v w :
  Z.of_nat (length (img_raw w)) <= i -> store i v w = Undefined.
Proof.
  intros Hi. unfold store.
  destruct (Z.ltb_spec i (Z.of_nat (length (img_raw w)))); [lia|].
  by rewrite andb_false_r.
Qed.

Lemma draws_length c k : length (draws E c k) = k.
Proof. unfold draws. by rewrite length_fmap, length_seq. Qed.

Lemma draws_S c k :
  draws E c (S k) = noise (env_rand E c) :: draws E (N.succ c) k.
Proof.
  unfold draws. simpl. rewrite N.add_0_r. f_equal.
  rewrite <- fmap_S_seq, <- list_fmap_compose.
  apply list_fmap_ext. intros _ j _. simpl. do 2 f_equal. lia.
Qed.

#[local] Arguments draws : simpl never.

Lemma filled_0 i w :
  filled E i 0 w = w.
Proof.
  destruct w. unfold filled, with_img_raw, with_rand_calls. simpl.
  rewrite Nat.add_0_r, take_drop, app_nil_r, N.add_0_r. reflexivity.
Qed.

(** One turn of the loop followed by the rest is the whole. *)
Lemma filled_S i k v w :
  0 <= i -> (Z.to_nat i < length (img_raw w))%nat ->
  v = noise (env_rand E (rand_calls w)) ->
  filled E (i + 1) k
    (with_img_raw (<[Z.to_nat i := v]> (img_raw w)) (stores w ++ [(i, v)])
                  (with_rand_calls (N.succ (rand_calls w)) w))
  = filled E i (S k) w.
Proof.
  intros Hi Hlen ->. unfold filled. rewrite draws_S.
  destruct w as [buf ? ? ? rc ? ? ? ? ? st].
  unfold with_img_raw, with_rand_calls in *. simpl in *. f_equal.
  - replace (Z.to_nat (i + 1)) with (S (Z.to_nat i)) by lia.
    rewrite (take_S_r _ _ (noise (env_rand E rc)))
      by (by apply list_lookup_insert_eq).
    rewrite take_insert_ge by lia.
    rewrite drop_insert_lt by lia.
    rewrite <- app_assoc. simpl.
    by replace (Z.to_nat i + S k)%nat with (S (Z.to_nat i + k)) by lia.
  - lia.
  - rewrite <- app_assoc. f_equal.
    rewrite (seqZ_cons i) by lia. simpl. do 2 f_equal. f_equal; lia.
Qed.

Lemma fill_loop_filled k : forall fuel i w,
  0 <= i -> i + Z.of_nat k <= UINT_MAX ->
  i + Z.of_nat k <= Z.of_nat (length (img_raw w)) ->
  (k < fuel)%nat ->
  fill_loop E fuel (i + Z.of_nat k) i w = Done (filled E i k w).
Proof.
  induction k as [|k IH]; intros fuel i w Hi Hmax Hlen Hfuel;
    (destruct fuel as [|fuel]; [lia|]); simpl fill_loop.
  - destruct (Z.ltb_spec i (i + Z.of_nat 0)); [lia|]. by rewrite filled_0.
  - destruct (Z.ltb_spec i (i + Z.of_nat (S k))); [|lia].
    unfold fill_body, rand.
    rewrite store_in_bounds by (simpl; lia). simpl.
    rewrite uint_incr_small by lia.
    replace (i + Z.of_nat (S k)) with (i + 1 + Z.of_nat k) by lia.
    rewrite IH; [| lia | lia | simpl; rewrite length_insert; lia | lia].
    by rewrite filled_S by (simpl; lia || done).
Qed.

End FillFacts.

Section FillTotal.

Context (E : Env).

(** With [bound + 1] tests of the condition the loop is over: [i] reaches
    [bound] before it can wrap.  An out-of-bounds write ends it earlier. *)
Lemma fill_loop_not_running fuel : forall bound i w,
  0 <= i <= bound -> bound <= UINT_MAX ->
  (Z.to_nat (bound - i) < fuel)%nat ->
  fill_loop E fuel bound i w <> Running.
Proof.
  induction fuel as [|fuel IH]; intros bound i w Hi Hmax Hfuel; [lia|].
  simpl. destruct (Z.ltb_spec i bound); [|done].
  unfold fill_body, rand, store.
  destruct (_ && _); [|done]. simpl.
  rewrite uint_incr_small by lia. apply IH; lia.
Qed.

Lemma fill_not_running width height w : fill E width height w <> Running.
Proof.
  unfold fill. apply fill_loop_not_running.
  - unfold to_uint. pose proof (Z.mod_pos_bound (int_mul width height) 4294967296). lia.
  - unfold to_uint, UINT_MAX.
    pose proof (Z.mod_pos_bound (int_mul width height) 4294967296). lia.
  - lia.
Qed.

Lemma fill_filled width height w :
  0 <= width * height <= INT_MAX ->
  width * height <= Z.of_nat (length (img_raw w)) ->
  fill E width height w = Done (filled E 0 (Z.to_nat (width * height)) w).
Proof.
  intros Hn Hlen. unfold fill.
  rewrite int_mul_small by (unfold INT_MIN; lia).
  rewrite to_uint_small by (unfold INT_MAX, UINT_MAX in *; lia).
  set (n := width * height) in *.
  replace n with (0 + Z.of_nat (Z.to_nat n)) at 2 by lia.
  apply fill_loop_filled; unfold INT_MAX, UINT_MAX in *; lia.
Qed.

Lemma filled_img_raw_length i k w :
  0 <= i -> i + Z.of_nat k <= Z.of_nat (length (img_raw w)) ->
  length (img_raw (filled E i k w)) = length (img_raw w).
Proof.
  intros Hi Hlen. unfold filled. simpl.
  rewrite !length_app, length_take, draws_length, length_drop. lia.
Qed.

(** The indices written, in the order of the writes. *)
Lemma filled_store_indices i k w :
  (stores (filled E i k w)).*1 = (stores w).*1 ++ seqZ i (Z.of_nat k).
Proof.
  unfold filled. simpl. rewrite fmap_app. f_equal.
  apply fst_zip. rewrite length_seqZ, draws_length. lia.
Qed.

Lemma filled_store_values i k w :
  (stores (filled E i k w)).*2 = (stores w).*2 ++ draws E (rand_calls w) k.
Proof.
  unfold filled. simpl. rewrite fmap_app. f_equal.
  apply snd_zip. rewrite length_seqZ, draws_length. lia.
Qed.

Lemma draws_range c k :
  rand_in_range E -> Forall (fun v => 0 <= v <= 254) (draws E c k).
Proof.
  intros HE. unfold draws. apply Forall_fmap, Forall_forall.
  intros j _. simpl. apply noise_spec, HE.
Qed.

End FillTotal.

(** ** Display sink: facts *)

Section DisplayFacts.

Context (E : Env).

Lemma imshow_in_bounds title m w :
  mat_rows m * mat_cols m <= Z.of_nat (length (load (mat_data m) w)) ->
  imshow title m w =
    Done (let f := mkFrame (mat_rows m) (mat_cols m)
                     (take (Z.to_nat (mat_rows m * mat_cols m))
                           (load (mat_data m) w)) in
          with_display (<[title := Some f]> (windows w))
                       (shown w ++ [(title, f)]) w).
Proof.
  intros Hn. unfold imshow.
  destruct (Z.leb_spec (mat_rows m * mat_cols m)
              (Z.of_nat (length (load (mat_data m) w)))); [done | lia].
Qed.

(** [imshow] changes the display and nothing else. *)
Lemma imshow_program_state title m w w' :
  imshow title m w = Done w' -> program_state w' = program_state w.
Proof.
  unfold imshow. destruct (_ <=? _); [|done]. intros [= <-]. reflexivity.
Qed.

Lemma cols_rows : cols * rows = 400000.
Proof. reflexivity. Qed.

Lemma present_loop_header w :
  buffer_ok w ->
  present (mkMat rows cols CV_8UC1 addr_img_raw) window_title w
  = Done (displayed w).
Proof.
  unfold buffer_ok. intros Hlen. unfold present.
  pose proof cols_rows as Hn.
  rewrite imshow_in_bounds by (cbn [mat_rows mat_cols mat_data load]; lia).
  reflexivity.
Qed.

End DisplayFacts.

(** ** Loop body: facts *)

Section LoopFacts.

Context (E : Env).

Lemma update_fps_program w :
  img_raw (update_fps E w) = img_raw w /\
  img_data (update_fps E w) = img_data w /\
  streaming (update_fps E w) = streaming w /\
  rand_calls (update_fps E w) = rand_calls w /\
  frame_no (update_fps E w) = frame_no w /\
  windows (update_fps E w) = windows w /\
  shown (update_fps E w) = shown w /\
  stores (update_fps E w) = stores w.
Proof. unfold update_fps. by destruct (fps_tick _ _ _) as [[c k] r]. Qed.

Lemma update_fps_monitor w :
  (counter (update_fps E w), clock_calls (update_fps E w),
   console (update_fps E w))
  = tick_acc E (counter w, clock_calls w, console w).
Proof.
  unfold update_fps, tick_acc. by destruct (fps_tick _ _ _) as [[c k] r].
Qed.

Lemma bind_Done {A B} (f : A -> outcome B) (a : A) : mbind f (Done a) = f a.
Proof. reflexivity. Qed.

Lemma fill_program w :
  buffer_ok w ->
  fill E cols rows w = Done (filled E 0 (Z.to_nat (cols * rows)) w).
Proof.
  intros Hlen. red in Hlen. pose proof cols_rows as Hn.
  apply fill_filled; unfold INT_MAX; lia.
Qed.

Lemma filled_buffer_ok w :
  buffer_ok w -> buffer_ok (filled E 0 (Z.to_nat (cols * rows)) w).
Proof.
  intros Hlen. red in Hlen. pose proof cols_rows as Hn.
  red. rewrite filled_img_raw_length; [done | lia | lia].
Qed.

(** The loop body on a state whose array has its declared size. *)
Lemma iteration_done w :
  buffer_ok w ->
  iteration E w
  = Done (update_fps E (displayed (filled E 0 (Z.to_nat (cols * rows)) w))).
Proof.
  intros Hlen. unfold iteration.
  rewrite fill_program, bind_Done by done.
  rewrite present_loop_header, bind_Done by (by apply filled_buffer_ok).
  reflexivity.
Qed.

Lemma iteration_buffer_ok w w' :
  buffer_ok w -> iteration E w = Done w' -> buffer_ok w'.
Proof.
  intros Hlen. rewrite iteration_done by done. intros [= <-].
  red. destruct (update_fps_program
    (displayed (filled E 0 (Z.to_nat (cols * rows)) w))) as [-> _].
  by apply filled_buffer_ok.
Qed.

End LoopFacts.

(** ** Rate monitor: facts *)

Section ElapsedFacts.

Lemma to_int64_small z : INT64_MIN <= z <= INT64_MAX -> to_int64 z = z.
Proof.
  unfold to_int64, INT64_MIN, INT64_MAX. intros Hz.
  rewrite Z.mod_small by lia. lia.
Qed.

(** A wrapped time that is not negative in truth is not longer than the
    true one. *)
Lemma to_int64_le z : 0 <= z -> to_int64 z <= z.
Proof.
  unfold to_int64. intros Hz.
  pose proof (Z.mod_le (z + 9223372036854775808) 18446744073709551616).
  lia.
Qed.

(** As long as the two readings are less than 2^63 ns apart the program
    measures the time between them as it is. *)
Lemma elapsed_ns_exact now last :
  INT64_MIN <= now - last <= INT64_MAX -> elapsed_ns now last = now - last.
Proof. apply to_int64_small. Qed.

End ElapsedFacts.

Section MonitorFacts.

Context (E : Env).

(** The two branches of the [if] at the end of the loop body. *)
Lemma fps_tick_accumulate c k :
  elapsed_ns (env_now E k) (time_of_last_fps_calculation c)
    <= ns_per_second ->
  fps_tick E c k
  = (mkRateCounter (time_of_last_fps_calculation c)
                   (int_incr (frames_since_last_fps_calculation c)),
     N.succ k, None).
Proof.
  intros Hle. unfold fps_tick.
  destruct (Z.gtb_spec
              (elapsed_ns (env_now E k) (time_of_last_fps_calculation c))
              ns_per_second); [lia | reflexivity].
Qed.

Lemma fps_tick_report c k :
  elapsed_ns (env_now E k) (time_of_last_fps_calculation c)
    > ns_per_second ->
  fps_tick E c k
  = (mkRateCounter (env_now E (N.succ k)) 0, N.succ (N.succ k),
     Some (frames_since_last_fps_calculation c)).
Proof.
  intros Hgt. unfold fps_tick.
  destruct (Z.gtb_spec
              (elapsed_ns (env_now E k) (time_of_last_fps_calculation c))
              ns_per_second); [reflexivity | lia].
Qed.

Lemma fps_ticks_succ n c k :
  fps_ticks E (N.succ n) c k = tick_acc E (fps_ticks E n c k).
Proof. unfold fps_ticks. apply N.iter_succ. Qed.

(** As long as no tick comes more than a second after the last report the
    counter goes up, as an [int], and nothing is printed. *)
Lemma fps_ticks_accumulate n : forall c k,
  (forall j, (j < n)%N ->
     elapsed_ns (env_now E (k + j)) (time_of_last_fps_calculation c)
       <= ns_per_second) ->
  fps_ticks E n c k
  = (mkRateCounter (time_of_last_fps_calculation c)
       (to_int (frames_since_last_fps_calculation c + Z.of_N n)),
     (k + n)%N, []) \/
  n = 0%N /\ fps_ticks E n c k = (c, k, []).
Proof.
  induction n as [|n IH] using N.peano_ind; intros c k Hacc.
  - right. split; reflexivity.
  - left. rewrite fps_ticks_succ.
    assert (Hn : forall j, (j < n)%N ->
      elapsed_ns (env_now E (k + j)) (time_of_last_fps_calculation c)
        <= ns_per_second)
      by (intros j Hj; apply Hacc; lia).
    assert (Hlast : elapsed_ns (env_now E (k + n))
                      (time_of_last_fps_calculation c) <= ns_per_second)
      by (apply Hacc; lia).
    destruct (IH c k Hn) as [-> | [-> ->]]; unfold tick_acc.
    + rewrite fps_tick_accumulate by done. simpl. unfold int_incr.
      rewrite to_int_add_l. do 3 f_equal; [f_equal; lia | lia].
    + rewrite N.add_0_r in Hlast. rewrite fps_tick_accumulate by done.
      simpl. unfold int_incr. do 3 f_equal; lia.
Qed.

End MonitorFacts.

(** ** Rate monitor: the claims *)

(** C2 (as amended).  The elapsed time is the time since the last report as
    the program measures it, [elapsed_ns].  For every [n] that an [int] can
    hold: when the counter is at [0] and [n] ticks come while the elapsed
    time is at most one second, and the next tick comes when it is more
    than one second, then those [n + 1] ticks print exactly one number,
    which is [n]; after it the tally is [0] and the time of the last report
    is what the clock showed when the report was made. *)
Theorem rate_monitor_reports_count (E : Env) (n : N) (c : RateCounter) (k : N) :
  frames_since_last_fps_calculation c = 0 ->
  Z.of_N n <= INT_MAX ->
  (forall j, (j < n)%N ->
     elapsed_ns (env_now E (k + j)) (time_of_last_fps_calculation c)
       <= ns_per_second) ->
  elapsed_ns (env_now E (k + n)) (time_of_last_fps_calculation c)
    > ns_per_second ->
  fps_ticks E (N.succ n) c k
  = (mkRateCounter (env_now E (N.succ (k + n))) 0, N.succ (N.succ (k + n)),
     [Z.of_N n]).
Proof.
  intros Hzero Hmax Hacc Hlate. rewrite fps_ticks_succ.
  destruct (fps_ticks_accumulate E n c k Hacc) as [-> | [-> ->]];
    unfold tick_acc.
  - rewrite fps_tick_report by done. simpl. rewrite Hzero.
    rewrite to_int_small by (unfold INT_MIN; lia). reflexivity.
  - rewrite N.add_0_r in *. rewrite fps_tick_report by done.
    simpl. by rewrite Hzero.
Qed.

Lemma rate_monitor_reports_count_witness :
  fps_ticks (late_env 3) 4 (mkRateCounter 0 0) 0
  = (mkRateCounter 2000000000 0, 5%N, [3]).
Proof.
  apply (rate_monitor_reports_count (late_env 3) 3 (mkRateCounter 0 0) 0).
  - reflexivity.
  - unfold INT_MAX. lia.
  - intros j Hj. cbn [env_now late_env time_of_last_fps_calculation].
    rewrite N.add_0_l. destruct (N.ltb_spec j 3); [|lia].
    vm_compute. discriminate.
  - vm_compute. reflexivity.
Defined.

(** C2 as stated fails when the tally overflows: after 2^31 ticks within
    the second the number printed is -2^31. *)
Lemma rate_monitor_count_overflows :
  let n := 2147483648%N in
  let E := late_env n in
  let c := mkRateCounter 0 0 in
  frames_since_last_fps_calculation c = 0 /\
  (forall j, (j < n)%N ->
     env_now E (0 + j) - time_of_last_fps_calculation c <= ns_per_second /\
     elapsed_ns (env_now E (0 + j)) (time_of_last_fps_calculation c)
     = env_now E (0 + j) - time_of_last_fps_calculation c) /\
  env_now E (0 + n) - time_of_last_fps_calculation c > ns_per_second /\
  elapsed_ns (env_now E (0 + n)) (time_of_last_fps_calculation c)
  = env_now E (0 + n) - time_of_last_fps_calculation c /\
  (fps_ticks E (N.succ n) c 0).2 = [-2147483648] /\
  (fps_ticks E (N.succ n) c 0).2 <> [Z.of_N n].
Proof.
  intros n E c.
  assert (Hacc : forall j, (j < n)%N ->
     env_now E (0 + j) - time_of_last_fps_calculation c <= ns_per_second /\
     elapsed_ns (env_now E (0 + j)) (time_of_last_fps_calculation c)
     = env_now E (0 + j) - time_of_last_fps_calculation c).
  { intros j Hj. subst E c.
    cbn [env_now late_env time_of_last_fps_calculation].
    rewrite N.add_0_l. destruct (N.ltb_spec j n); [|lia].
    split; [unfold ns_per_second; lia | reflexivity]. }
  assert (Hlate : env_now E (0 + n) - time_of_last_fps_calculation c
                  > ns_per_second) by (vm_compute; reflexivity).
  assert (Hsame : elapsed_ns (env_now E (0 + n))
                    (time_of_last_fps_calculation c)
                  = env_now E (0 + n) - time_of_last_fps_calculation c)
    by (vm_compute; reflexivity).
  assert (Hout : (fps_ticks E (N.succ n) c 0).2 = [-2147483648]).
  { rewrite fps_ticks_succ.
    destruct (fps_ticks_accumulate E n c 0) as [-> | [[=] _]].
    - intros j Hj. destruct (Hacc j Hj) as [Hle ->]. exact Hle.
    - unfold tick_acc. rewrite fps_tick_report by (vm_compute; reflexivity).
      reflexivity. }
  split; [reflexivity|]. split; [exact Hacc|]. split; [exact Hlate|].
  split; [exact Hsame|]. split; [exact Hout|]. rewrite Hout. discriminate.
Qed.

(** C3.  The elapsed time is the time since the last report as the program
    measures it, [elapsed_ns].  A tick that comes when it is exactly one
    second counts the frame (the tally goes up, as the [int] it is) and
    prints nothing; a tick that comes when it is any [eps > 0] more than
    one second prints the tally: the comparison is strict. *)
Theorem report_condition_is_strict (E : Env) (c : RateCounter) (k : N)
    (eps : Z) :
  0 <= eps ->
  elapsed_ns (env_now E k) (time_of_last_fps_calculation c)
  = ns_per_second + eps ->
  fps_tick E c k
  = if eps =? 0 then
      (mkRateCounter (time_of_last_fps_calculation c)
                     (int_incr (frames_since_last_fps_calculation c)),
       N.succ k, None)
    else
      (mkRateCounter (env_now E (N.succ k)) 0, N.succ (N.succ k),
       Some (frames_since_last_fps_calculation c)).
Proof.
  intros Heps Hdiff. destruct (Z.eqb_spec eps 0).
  - apply fps_tick_accumulate. lia.
  - apply fps_tick_report. lia.
Qed.

Lemma report_condition_is_strict_witness :
  fps_tick (still_env 0 1000000000) (mkRateCounter 0 7) 0
  = (mkRateCounter 0 8, 1%N, None) /\
  fps_tick (still_env 0 1000000001) (mkRateCounter 0 7) 0
  = (mkRateCounter 1000000001 0, 2%N, Some 7).
Proof.
  split.
  - apply (report_condition_is_strict (still_env 0 1000000000)
             (mkRateCounter 0 7) 0 0); [lia | reflexivity].
  - apply (report_condition_is_strict (still_env 0 1000000001)
             (mkRateCounter 0 7) 0 1); [lia | reflexivity].
Defined.

(** ** The loop: facts *)

Section PassFacts.

Context (E : Env).

Lemma passes_S n w :
  buffer_ok w ->
  passes E (S n) w = if streaming w then passes E n (pass E w) else Done w.
Proof.
  intros Hlen. cbn [passes]. destruct (streaming w); [|done].
  by rewrite iteration_done, bind_Done by done.
Qed.

Lemma while_streaming_S fuel w :
  buffer_ok w ->
  while_streaming E (S fuel) w
  = if streaming w then while_streaming E fuel (pass E w) else Done w.
Proof.
  intros Hlen. cbn [while_streaming]. destruct (streaming w); [|done].
  by rewrite iteration_done, bind_Done by done.
Qed.

Lemma pass_buffer_ok w : buffer_ok w -> buffer_ok (pass E w).
Proof.
  intros Hlen. unfold pass, end_of_iteration, buffer_ok.
  cbn [img_raw with_streaming].
  destruct (update_fps_program E
    (displayed (filled E 0 (Z.to_nat (cols * rows)) w))) as [-> _].
  by apply filled_buffer_ok.
Qed.

Lemma pass_frame_no w : frame_no (pass E w) = N.succ (frame_no w).
Proof.
  unfold pass, end_of_iteration. cbn [frame_no with_streaming].
  destruct (update_fps_program E
    (displayed (filled E 0 (Z.to_nat (cols * rows)) w)))
    as (_ & _ & _ & _ & -> & _).
  reflexivity.
Qed.

Lemma pass_streaming w :
  streaming (pass E w)
  = default (streaming w) (env_streaming E (frame_no w)).
Proof.
  unfold pass, end_of_iteration. cbn [streaming with_streaming].
  destruct (update_fps_program E
    (displayed (filled E 0 (Z.to_nat (cols * rows)) w)))
    as (_ & _ & -> & _ & -> & _).
  reflexivity.
Qed.

Lemma pass_monitor w :
  (counter (pass E w), clock_calls (pass E w), console (pass E w))
  = tick_acc E (counter w, clock_calls w, console w).
Proof.
  unfold pass, end_of_iteration.
  cbn [counter clock_calls console with_streaming].
  by rewrite update_fps_monitor.
Qed.

Lemma pass_shown w :
  shown (pass E w)
  = shown w ++ [(window_title,
                 shown_frame (filled E 0 (Z.to_nat (cols * rows)) w))].
Proof.
  unfold pass, end_of_iteration. cbn [shown with_streaming].
  destruct (update_fps_program E
    (displayed (filled E 0 (Z.to_nat (cols * rows)) w)))
    as (_ & _ & _ & _ & _ & _ & -> & _).
  reflexivity.
Qed.

Lemma pass_stores w :
  stores (pass E w) = stores (filled E 0 (Z.to_nat (cols * rows)) w).
Proof.
  unfold pass, end_of_iteration. cbn [stores with_streaming].
  destruct (update_fps_program E
    (displayed (filled E 0 (Z.to_nat (cols * rows)) w)))
    as (_ & _ & _ & _ & _ & _ & _ & ->).
  reflexivity.
Qed.

Lemma pass_rand_calls w :
  rand_calls (pass E w)
  = (rand_calls w + N.of_nat (Z.to_nat (cols * rows)))%N.
Proof.
  unfold pass, end_of_iteration. cbn [rand_calls with_streaming].
  destruct (update_fps_program E
    (displayed (filled E 0 (Z.to_nat (cols * rows)) w)))
    as (_ & _ & _ & -> & _).
  reflexivity.
Qed.

(** A property that holds before the loop and is kept by every pass holds
    at every boundary; and every boundary is reached. *)
Lemma passes_invariant (P : World -> Prop) :
  (forall w, P w -> buffer_ok w -> streaming w = true -> P (pass E w)) ->
  forall n w, P w -> buffer_ok w ->
    exists w', passes E n w = Done w' /\ P w' /\ buffer_ok w'.
Proof.
  intros Hstep. induction n as [|n IH]; intros w HP Hlen.
  - exists w. by cbn [passes].
  - rewrite passes_S by done. destruct (streaming w) eqn:Hs.
    + apply IH; [by apply Hstep | by apply pass_buffer_ok].
    + by exists w.
Qed.

Lemma setup_buffer_ok heap : buffer_ok (setup E heap).
Proof. red. cbn. apply length_replicate. Qed.

Lemma setup_monitor heap :
  counter (setup E heap) = mkRateCounter (env_now E 0) 0 /\
  clock_calls (setup E heap) = 1%N /\ console (setup E heap) = [] /\
  frame_no (setup E heap) = 0%N /\ streaming (setup E heap) = true /\
  stores (setup E heap) = [] /\ shown (setup E heap) = [] /\
  rand_calls (setup E heap) = 0%N.
Proof. by cbn. Qed.

End PassFacts.

(** ** Counting frames: facts *)

Section TallyFacts.

Context (E : Env).

Lemma total_snoc l x : total (l ++ [x]) = total l + x.
Proof. unfold total. induction l as [|y l IH]; simpl; lia. Qed.

Lemma total_nonneg l : Forall (fun v => 0 <= v) l -> 0 <= total l.
Proof. unfold total. induction 1; simpl; lia. Qed.

(** What one tick does: it either counts or reports. *)
Lemma fps_tick_cases c k :
  match fps_tick E c k with
  | (c', _, None) =>
      frames_since_last_fps_calculation c'
      = int_incr (frames_since_last_fps_calculation c) /\
      time_of_last_fps_calculation c' = time_of_last_fps_calculation c
  | (c', _, Some v) =>
      v = frames_since_last_fps_calculation c /\
      frames_since_last_fps_calculation c' = 0
  end.
Proof. unfold fps_tick. by destruct (_ >? _). Qed.

Lemma setup_tally_adds_up heap : tally_adds_up (setup E heap).
Proof. red. cbn. split; [done|]. split; [constructor | done]. Qed.

End TallyFacts.

(** ** Frames: the claims *)

Section FrameFacts.

Context (E : Env).

Lemma shown_frame_full w : buffer_ok w -> full_frame (shown_frame w).
Proof.
  unfold buffer_ok, full_frame, shown_frame. intros Hlen.
  cbn [frame_rows frame_cols frame_pixels].
  split; [done|]. split; [done|].
  rewrite length_take. pose proof cols_rows. lia.
Qed.

Lemma pass_shown_full w :
  buffer_ok w ->
  Forall (fun p => full_frame p.2) (shown w) ->
  Forall (fun p => full_frame p.2) (shown (pass E w)).
Proof.
  intros Hlen Hall. rewrite pass_shown. apply Forall_app. split; [done|].
  apply Forall_singleton. cbn [snd].
  by apply shown_frame_full, filled_buffer_ok.
Qed.

Lemma draws_app c a b :
  draws E c (a + b) = draws E c a ++ draws E (c + N.of_nat a) b.
Proof.
  unfold draws. rewrite seq_app, fmap_app. f_equal.
  rewrite (Nat.add_comm 0 a), <- (fmap_add_seq a 0 b), <- list_fmap_compose.
  apply list_fmap_ext. intros _ j _. simpl. do 2 f_equal. lia.
Qed.

Lemma pass_writes_are_draws w :
  writes_are_draws E w -> writes_are_draws E (pass E w).
Proof.
  intros [Hval Hcalls]. unfold writes_are_draws.
  rewrite pass_stores, pass_rand_calls, filled_store_values.
  assert (Hlen : length (stores (filled E 0 (Z.to_nat (cols * rows)) w))
                 = (length (stores w) + Z.to_nat (cols * rows))%nat).
  { rewrite <- (length_fmap snd), filled_store_values, length_app.
    by rewrite length_fmap, draws_length. }
  rewrite Hlen. split.
  - by rewrite draws_app, Hval, Hcalls, N.add_0_l.
  - rewrite Hcalls. lia.
Qed.

End FrameFacts.

(** C7.  At every boundary of the loop [img_raw] holds 400000 pixels, and
    every frame that was handed to the display is 400 rows of 1000 columns
    with all its 400000 pixels. *)
Theorem frame_length_invariant (E : Env) (heap : list Z) (n : nat) :
  exists w, passes E n (setup E heap) = Done w /\
    Z.of_nat (length (img_raw w)) = 400000 /\
    Forall (fun p =>
              frame_rows p.2 = 400 /\ frame_cols p.2 = 1000 /\
              Z.of_nat (length (frame_pixels p.2))
              = frame_cols p.2 * frame_rows p.2 /\
              Z.of_nat (length (frame_pixels p.2)) = 400000)
           (shown w).
Proof.
  destruct (passes_invariant E (fun w => Forall (fun p => full_frame p.2)
              (shown w))) with (n := n) (w := setup E heap)
    as (w & Hw & Hall & Hlen).
  - intros w Hall Hlen _. by apply pass_shown_full.
  - destruct (setup_monitor E heap) as (_ & _ & _ & _ & _ & _ & -> & _).
    constructor.
  - apply setup_buffer_ok.
  - exists w. split; [done|]. red in Hlen. pose proof cols_rows as Hn.
    split; [lia|].
    eapply Forall_impl; [exact Hall|].
    intros [t f] (Hr & Hc & Hpix). cbn [snd] in *.
    rewrite Hr, Hc, Hpix.
    split; [reflexivity|]. split; [reflexivity|]. split; lia.
Qed.

(** C10.  Every pixel written is [rand() % 255] of its draw and lies between
    [0] and [254]: at every boundary of the loop, the values written so far
    are those pixels, in the order of the draws, and none of them is
    [255]. *)
Theorem pixel_255_never_written (E : Env) (heap : list Z) (n : nat) :
  rand_in_range E ->
  (forall k, noise (env_rand E k) = env_rand E k mod 255 /\
             0 <= noise (env_rand E k) <= 254) /\
  exists w, passes E n (setup E heap) = Done w /\
    (stores w).*2 = draws E 0 (length (stores w)) /\
    Forall (fun iv => 0 <= iv.2 <= 254 /\ iv.2 <> 255) (stores w).
Proof.
  intros HE. split; [intros k; apply noise_spec, HE|].
  destruct (passes_invariant E (writes_are_draws E)) with
    (n := n) (w := setup E heap) as (w & Hw & [Hval Hcalls] & Hlen).
  - intros w Hinv _ _. by apply pass_writes_are_draws.
  - red. by destruct (setup_monitor E heap) as (_ & _ & _ & _ & _ & -> & _ & ->).
  - apply setup_buffer_ok.
  - exists w. split; [done|]. split; [done|].
    pose proof (draws_range E 0 (length (stores w)) HE) as Hrange.
    rewrite <- Hval in Hrange.
    apply Forall_fmap in Hrange. eapply Forall_impl; [exact Hrange|].
    simpl. intros iv Hiv. lia.
Qed.

Lemma pixel_255_never_written_witness :
  exists w, passes (stop_env 5) 2 (setup (stop_env 5) []) = Done w /\
    (stores w).*2 = draws (stop_env 5) 0 (length (stores w)) /\
    Forall (fun iv => 0 <= iv.2 <= 254 /\ iv.2 <> 255) (stores w).
Proof.
  apply (pixel_255_never_written (stop_env 5) [] 2).
  intros k. cbn [env_rand stop_env].
  pose proof (Z.mod_pos_bound (Z.of_N k) 32768). unfold INT_MAX. lia.
Defined.

(** ** Frame source: the claims *)

(** The writes of a fill that is through, as they are logged, are in the
    array. *)
Lemma logged_writes_in_array (E : Env) (m : nat) (c : N) (rest : list Z) :
  Forall (fun iv : Z * Z =>
            0 <= iv.1 < Z.of_nat m /\
            (draws E c m ++ rest) !! Z.to_nat iv.1 = Some iv.2)
         (zip (seqZ 0 (Z.of_nat m)) (draws E c m)).
Proof.
  apply Forall_lookup_2. intros j [i v] Hj.
  apply lookup_zip_with_Some in Hj as (i' & v' & [= -> ->] & Hi & Hv).
  apply lookup_seqZ in Hi as [-> Hlt]. cbn [fst snd]. split; [lia|].
  replace (Z.to_nat (0 + Z.of_nat j)) with j by lia.
  rewrite lookup_app_l by (rewrite draws_length; lia). exact Hv.
Qed.

(** C5.  On an array of at least [width * height] pixels the fill loop ends
    without an access outside the array, and makes exactly
    [width * height] writes: one to each of the indices [0], [1], ...,
    [width * height - 1], in this order, and none elsewhere.  Every write
    is in the array afterwards: the pixel at its index is the value
    written, and the pixels from [width * height] on are as they were.  On
    the array of the program, of 400000 pixels, the loop for [cols] by
    [rows] writes to the indices [0], ..., [399999], all of them inside the
    array. *)
Theorem fill_writes_each_index_once (E : Env) (width height : Z) (w : World) :
  0 < width -> 0 < height -> width * height <= INT_MAX ->
  width * height <= Z.of_nat (length (img_raw w)) ->
  (exists w' new,
     fill E width height w = Done w' /\
     stores w' = stores w ++ new /\
     new.*1 = seqZ 0 (width * height) /\
     Z.of_nat (length new) = width * height /\
     Forall (fun iv => 0 <= iv.1 < width * height /\
                       img_raw w' !! Z.to_nat iv.1 = Some iv.2) new /\
     (forall i : nat, (Z.to_nat (width * height) <= i)%nat ->
        img_raw w' !! i = img_raw w !! i) /\
     length (img_raw w') = length (img_raw w)) /\
  (forall w0, buffer_ok w0 ->
     exists w1 new,
       fill E cols rows w0 = Done w1 /\
       stores w1 = stores w0 ++ new /\
       new.*1 = seqZ 0 400000 /\
       Forall (fun iv => 0 <= iv.1 < Z.of_nat (length (img_raw w0)) /\
                         img_raw w1 !! Z.to_nat iv.1 = Some iv.2) new).
Proof.
  intros Hw Hh Hmax Hlen.
  assert (Hnew : forall i k c,
    (zip (seqZ i (Z.of_nat k)) (draws E c k)).*1 = seqZ i (Z.of_nat k)).
  { intros i k c. apply fst_zip. rewrite length_seqZ, draws_length. lia. }
  split.
  - assert (Hfill := fill_filled E width height w ltac:(lia) Hlen).
    assert (Hsame := filled_img_raw_length E 0 (Z.to_nat (width * height)) w).
    set (m := Z.to_nat (width * height)) in *.
    assert (Hm : width * height = Z.of_nat m) by lia. clearbody m.
    exists (filled E 0 m w), (zip (seqZ 0 (Z.of_nat m))
                                  (draws E (rand_calls w) m)).
    split; [done|]. split; [reflexivity|].
    rewrite Hnew, length_zip, length_seqZ, draws_length, Hm.
    split; [done|]. split; [lia|].
    unfold filled. cbn [img_raw with_img_raw].
    rewrite take_0, app_nil_l, Nat.add_0_l.
    split; [apply logged_writes_in_array|]. split.
    + intros i Hi. rewrite lookup_app_r by (rewrite draws_length; lia).
      rewrite draws_length, lookup_drop. f_equal. lia.
    + rewrite length_app, draws_length, length_drop. lia.
  - intros w0 Hlen0. pose proof cols_rows as Hn.
    assert (Hfill := fill_program E w0 Hlen0). red in Hlen0.
    set (m := Z.to_nat (cols * rows)) in *.
    assert (Hm : Z.of_nat m = 400000) by lia. clearbody m.
    exists (filled E 0 m w0), (zip (seqZ 0 (Z.of_nat m))
                                   (draws E (rand_calls w0) m)).
    split; [done|]. split; [reflexivity|].
    rewrite Hnew, Hlen0. split; [by rewrite Hm|].
    unfold filled. cbn [img_raw with_img_raw].
    rewrite take_0, app_nil_l. apply logged_writes_in_array.
Qed.

Lemma fill_writes_each_index_once_witness :
  exists w' new,
    fill (still_env 7 0) 3 2 small_world = Done w' /\
    stores w' = stores small_world ++ new /\
    new.*1 = seqZ 0 (3 * 2) /\
    Z.of_nat (length new) = 3 * 2 /\
    Forall (fun iv => 0 <= iv.1 < 3 * 2 /\
                      img_raw w' !! Z.to_nat iv.1 = Some iv.2) new /\
    (forall i : nat, (Z.to_nat (3 * 2) <= i)%nat ->
       img_raw w' !! i = img_raw small_world !! i) /\
    length (img_raw w') = length (img_raw small_world).
Proof.
  refine (proj1 (fill_writes_each_index_once (still_env 7 0) 3 2
                   small_world _ _ _ _)).
  - lia.
  - lia.
  - unfold INT_MAX. lia.
  - simpl. lia.
Defined.

(** C1: the draws that make a given pixel.  Of the draws [0], ...,
    [rand_max] that [rand()] can return none makes the pixel [255], while
    the pixel [0] is made by the draw [0]: the pixel values are not equally
    likely under a uniform source. *)
Theorem noise_never_makes_255 (rand_max : Z) :
  0 <= rand_max <= INT_MAX ->
  occurrences rand_max 255 = 0%nat /\ (0 < occurrences rand_max 0)%nat /\
  noise 255 = 0 /\ noise 0 = 0.
Proof.
  intros Hmax. unfold occurrences. split; [|split; [|done]].
  - destruct (filter _ _) as [|r l] eqn:Hf; [done|]. exfalso.
    assert (Hin : r ∈ filter (fun r => noise r = 255)
                              (seqZ 0 (rand_max + 1)))
      by (rewrite Hf; apply list_elem_of_here).
    apply list_elem_of_filter in Hin as [Hr Hin%elem_of_seqZ].
    destruct (noise_spec r) as [_ Hrange]; lia.
  - assert (Hin : 0 ∈ filter (fun r => noise r = 0) (seqZ 0 (rand_max + 1))).
    { apply list_elem_of_filter. split; [done|]. apply elem_of_seqZ. lia. }
    destruct (filter _ _); [by apply elem_of_nil in Hin | simpl; lia].
Qed.

Lemma noise_never_makes_255_witness :
  occurrences 2147483647 255 = 0%nat /\
  (0 < occurrences 2147483647 0)%nat /\ noise 255 = 0 /\ noise 0 = 0.
Proof.
  apply (noise_never_makes_255 2147483647). unfold INT_MAX. lia.
Defined.

(** ** Display sink: the claim *)

(** C6.  With [imshow] and [waitKey] as the spec describes them, showing a
    frame whose pixels are all there changes the display and nothing else:
    after one call, and after a second call with the same header, the
    pixel stores, the flag, the frame counter and all the rest of the
    program's state are what they were; the header is a value that
    [present] only reads.  The second call puts the same frame on the
    window as the first. *)
Theorem present_leaves_program_state (view : Mat) (title : string)
    (w : World) :
  mat_rows view * mat_cols view
    <= Z.of_nat (length (load (mat_data view) w)) ->
  exists w1 w2,
    present view title w = Done w1 /\
    present view title w1 = Done w2 /\
    program_state w1 = program_state w /\
    program_state w2 = program_state w /\
    load (mat_data view) w1 = load (mat_data view) w /\
    load (mat_data view) w2 = load (mat_data view) w /\
    windows w2 = windows w1 /\
    windows w1 !! title
    = Some (Some (mkFrame (mat_rows view) (mat_cols view)
                    (take (Z.to_nat (mat_rows view * mat_cols view))
                          (load (mat_data view) w)))).
Proof.
  intros Hlen.
  set (f := mkFrame (mat_rows view) (mat_cols view)
              (take (Z.to_nat (mat_rows view * mat_cols view))
                    (load (mat_data view) w))).
  set (w1 := with_display (<[title := Some f]> (windows w))
                          (shown w ++ [(title, f)]) w).
  set (w2 := with_display (<[title := Some f]> (windows w1))
                          (shown w1 ++ [(title, f)]) w1).
  assert (Hload : load (mat_data view) w1 = load (mat_data view) w)
    by (by destruct (mat_data view)).
  assert (H1 : present view title w = Done w1).
  { unfold present. by rewrite (imshow_in_bounds title view w Hlen). }
  assert (H2 : present view title w1 = Done w2).
  { unfold present. rewrite imshow_in_bounds by (by rewrite Hload).
    by rewrite Hload. }
  exists w1, w2. split; [exact H1|]. split; [exact H2|].
  split; [reflexivity|]. split; [reflexivity|].
  split; [exact Hload|]. split; [by destruct (mat_data view)|].
  cbn [windows with_display w1 w2]. split.
  - apply insert_insert_eq.
  - apply lookup_insert_eq.
Qed.

Lemma present_leaves_program_state_witness :
  exists w1 w2,
    present (mkMat 2 3 CV_8UC1 addr_img_raw) window_title small_world
      = Done w1 /\
    present (mkMat 2 3 CV_8UC1 addr_img_raw) window_title w1 = Done w2 /\
    program_state w1 = program_state small_world /\
    program_state w2 = program_state small_world /\
    load addr_img_raw w1 = load addr_img_raw small_world /\
    load addr_img_raw w2 = load addr_img_raw small_world /\
    windows w2 = windows w1 /\
    windows w1 !! window_title
    = Some (Some (mkFrame 2 3 (take (Z.to_nat (2 * 3))
                                    (load addr_img_raw small_world)))).
Proof.
  apply (present_leaves_program_state (mkMat 2 3 CV_8UC1 addr_img_raw)
           window_title small_world).
  simpl. lia.
Defined.

(** ** The loop: the claims *)

Section StreamingFacts.

Context (E : Env).

(** The loop is left only with the flag down. *)
Lemma while_streaming_done fuel : forall w w',
  while_streaming E fuel w = Done w' -> streaming w' = false.
Proof.
  induction fuel as [|fuel IH]; intros w w'; cbn [while_streaming]; [done|].
  destruct (streaming w) eqn:Hs.
  - destruct (iteration E w) as [w1| |]; [|done|done].
    rewrite bind_Done. apply IH.
  - by intros [= <-].
Qed.

(** While nobody clears the flag the loop goes on. *)
Lemma while_streaming_running fuel : forall k w,
  buffer_ok w -> streaming w = true ->
  (forall j, (j < k)%nat ->
     env_streaming E (frame_no w + N.of_nat j) <> Some false) ->
  (fuel <= k)%nat ->
  while_streaming E fuel w = Running.
Proof.
  induction fuel as [|fuel IH]; intros k w Hlen Hs Hup Hk; [done|].
  rewrite while_streaming_S, Hs by done.
  apply (IH (pred k)).
  - by apply pass_buffer_ok.
  - rewrite pass_streaming, Hs.
    specialize (Hup 0%nat ltac:(lia)). rewrite N.add_0_r in Hup.
    by destruct (env_streaming E (frame_no w)) as [[]|].
  - intros j Hj. rewrite pass_frame_no.
    replace (N.succ (frame_no w) + N.of_nat j)%N
      with (frame_no w + N.of_nat (S j))%N by lia.
    apply Hup. lia.
  - lia.
Qed.

(** Once the flag is cleared, during pass number [k] from here, that pass
    is the last. *)
Lemma while_streaming_stops k : forall fuel w,
  buffer_ok w -> streaming w = true ->
  (forall j, (j < k)%nat ->
     env_streaming E (frame_no w + N.of_nat j) <> Some false) ->
  env_streaming E (frame_no w + N.of_nat k) = Some false ->
  (k + 1 < fuel)%nat ->
  exists w', while_streaming E fuel w = Done w' /\
    passes E (S k) w = Done w' /\
    frame_no w' = (frame_no w + N.of_nat k + 1)%N /\ streaming w' = false.
Proof.
  induction k as [|k IH]; intros fuel w Hlen Hs Hup Hdown Hfuel.
  - destruct fuel as [|[|fuel]]; [lia | lia |].
    rewrite N.add_0_r in Hdown.
    assert (Hoff : streaming (pass E w) = false)
      by (by rewrite pass_streaming, Hdown).
    exists (pass E w).
    rewrite while_streaming_S, Hs by done.
    rewrite while_streaming_S, Hoff by (by apply pass_buffer_ok).
    rewrite passes_S, Hs by done. cbn [passes].
    rewrite pass_frame_no. split; [done|]. split; [done|].
    split; [lia | done].
  - destruct fuel as [|fuel]; [lia|].
    assert (Hon : streaming (pass E w) = true).
    { rewrite pass_streaming, Hs.
      specialize (Hup 0%nat ltac:(lia)). rewrite N.add_0_r in Hup.
      by destruct (env_streaming E (frame_no w)) as [[]|]. }
    destruct (IH fuel (pass E w)) as (w' & Hrun & Hpass & Hno & Hoff).
    + by apply pass_buffer_ok.
    + done.
    + intros j Hj. rewrite pass_frame_no.
      replace (N.succ (frame_no w) + N.of_nat j)%N
        with (frame_no w + N.of_nat (S j))%N by lia.
      apply Hup. lia.
    + rewrite pass_frame_no.
      replace (N.succ (frame_no w) + N.of_nat k)%N
        with (frame_no w + N.of_nat (S k))%N by lia.
      done.
    + lia.
    + exists w'. rewrite while_streaming_S, Hs by done.
      rewrite (passes_S E (S k)), Hs by done.
      rewrite pass_frame_no in Hno. split; [done|]. split; [done|].
      split; [lia | done].
Qed.

Lemma while_streaming_hoisted_eq fuel : forall w,
  while_streaming_hoisted E (mkMat rows cols CV_8UC1 addr_img_raw) fuel w
  = while_streaming E fuel w.
Proof.
  induction fuel as [|fuel IH]; intros w; [done|].
  cbn [while_streaming while_streaming_hoisted].
  destruct (streaming w); [|done].
  change (iteration_hoisted E (mkMat rows cols CV_8UC1 addr_img_raw) w)
    with (iteration E w).
  destruct (iteration E w) as [w1| |]; [|done|done].
  rewrite !bind_Done. apply IH.
Qed.

End StreamingFacts.

(** C8.  The flag is tested once before every pass.  While nobody has
    cleared it the loop is still going; when it is cleared during pass
    number [k] (the first pass is number [0]) that pass is completed, no
    further pass begins, and [main] returns [0] after [k + 1] passes.
    [main] returns in no other way: whenever it returns, the exit code is
    [0] and the flag is down. *)
Theorem loop_stops_at_cleared_flag (E : Env) (heap : list Z) (k : nat) :
  (forall j, (j < k)%nat -> env_streaming E (N.of_nat j) <> Some false) ->
  (forall fuel, (fuel <= k)%nat -> main E fuel heap = Running) /\
  (env_streaming E (N.of_nat k) = Some false ->
   forall fuel, (k + 1 < fuel)%nat ->
     exists w, main E fuel heap = Done (0, w) /\
       passes E (S k) (setup E heap) = Done w /\
       frame_no w = N.of_nat (S k) /\ streaming w = false) /\
  (forall fuel code w,
     main E fuel heap = Done (code, w) -> code = 0 /\ streaming w = false).
Proof.
  intros Hup.
  pose proof (setup_buffer_ok E heap) as Hlen.
  destruct (setup_monitor E heap) as (_ & _ & _ & Hno & Hs & _).
  assert (Hup' : forall j, (j < k)%nat ->
    env_streaming E (frame_no (setup E heap) + N.of_nat j) <> Some false)
    by (intros j Hj; rewrite Hno, N.add_0_l; by apply Hup).
  split; [|split].
  - intros fuel Hfuel. unfold main.
    by rewrite (while_streaming_running E fuel k).
  - intros Hdown fuel Hfuel.
    destruct (while_streaming_stops E k fuel (setup E heap))
      as (w & Hrun & Hpass & Hw & Hoff);
      [done | done | done | by rewrite Hno, N.add_0_l | done |].
    exists w. unfold main. rewrite Hrun, bind_Done.
    split; [reflexivity|]. split; [done|]. split; [|done].
    rewrite Hw, Hno. lia.
  - intros fuel code w. unfold main.
    destruct (while_streaming E fuel (setup E heap)) as [w'| |] eqn:Hrun;
      [|done|done].
    rewrite bind_Done. intros [= <- <-]. split; [done|].
    by apply (while_streaming_done E fuel (setup E heap)).
Qed.

Lemma loop_stops_at_cleared_flag_witness :
  (forall fuel, (fuel <= 1)%nat -> main (stop_env 1) fuel [] = Running) /\
  (env_streaming (stop_env 1) (N.of_nat 1) = Some false ->
   forall fuel, (1 + 1 < fuel)%nat ->
     exists w, main (stop_env 1) fuel [] = Done (0, w) /\
       passes (stop_env 1) 2 (setup (stop_env 1) []) = Done w /\
       frame_no w = N.of_nat 2 /\ streaming w = false) /\
  (forall fuel code w,
     main (stop_env 1) fuel [] = Done (code, w) ->
     code = 0 /\ streaming w = false).
Proof.
  apply (loop_stops_at_cleared_flag (stop_env 1) [] 1).
  intros j Hj. assert (j = 0%nat) as -> by lia. vm_compute. discriminate.
Defined.

(** C9.  Building the header over [img_raw] once before the loop gives the
    same run as building it in every pass: for all draws, clock readings
    and writes to the flag, and for any number of steps, both programs are
    in the same state, and so have shown the same frames, printed the same
    lines and returned the same exit code. *)
Theorem hoisted_header_same_behaviour (E : Env) (fuel : nat) (heap : list Z) :
  main_hoisted E fuel heap = main E fuel heap /\
  observable (main_hoisted E fuel heap) = observable (main E fuel heap).
Proof.
  assert (Heq : main_hoisted E fuel heap = main E fuel heap).
  { unfold main_hoisted, main. cbv zeta.
    by rewrite while_streaming_hoisted_eq. }
  split; [exact Heq | by rewrite Heq].
Qed.

(** ** The rate monitor inside the loop *)

Section MonitorInLoop.

Context (E : Env).

(** Ticks that start with lines already on the console add theirs at the
    end. *)
Lemma tick_acc_iter n : forall c k out,
  N.iter n (tick_acc E) (c, k, out)
  = ((fps_ticks E n c k).1, out ++ (fps_ticks E n c k).2).
Proof.
  induction n as [|n IH] using N.peano_ind; intros c k out.
  - cbn. by rewrite app_nil_r.
  - rewrite fps_ticks_succ, N.iter_succ, IH.
    destruct (fps_ticks E n c k) as [[c' k'] o]. cbn [fst snd tick_acc].
    destruct (fps_tick E c' k') as [[c'' k''] r]. cbn [fst snd].
    by rewrite app_assoc.
Qed.

(** The passes of the loop as ticks of the monitor. *)
Lemma passes_ticks n : forall w,
  buffer_ok w -> streaming w = true ->
  (forall j, (j < n)%nat ->
     env_streaming E (frame_no w + N.of_nat j) <> Some false) ->
  exists w', passes E n w = Done w' /\
    (counter w', clock_calls w')
    = (fps_ticks E (N.of_nat n) (counter w) (clock_calls w)).1 /\
    console w'
    = console w ++ (fps_ticks E (N.of_nat n) (counter w) (clock_calls w)).2.
Proof.
  induction n as [|n IH]; intros w Hlen Hs Hup.
  - exists w. cbn. by rewrite app_nil_r.
  - rewrite passes_S, Hs by done.
    destruct (IH (pass E w)) as (w' & Hrun & Hmon & Hout).
    + by apply pass_buffer_ok.
    + rewrite pass_streaming, Hs.
      specialize (Hup 0%nat ltac:(lia)). rewrite N.add_0_r in Hup.
      by destruct (env_streaming E (frame_no w)) as [[]|].
    + intros j Hj. rewrite pass_frame_no.
      replace (N.succ (frame_no w) + N.of_nat j)%N
        with (frame_no w + N.of_nat (S j))%N by lia.
      apply Hup. lia.
    + exists w'. split; [done|].
      pose proof (pass_monitor E w) as Hpass.
      pose proof (tick_acc_iter (N.of_nat n) (counter (pass E w))
                    (clock_calls (pass E w)) (console (pass E w))) as Hiter.
      rewrite Hpass, <- N.iter_succ_r in Hiter.
      replace (N.succ (N.of_nat n)) with (N.of_nat (S n)) in Hiter by lia.
      rewrite tick_acc_iter in Hiter.
      pose proof (f_equal fst Hiter) as H1.
      pose proof (f_equal snd Hiter) as H2. cbn [fst snd] in H1, H2.
      by rewrite Hmon, Hout, H1, H2.
Qed.

End MonitorInLoop.

(** X9.  While the flag stays up, [n] passes through the loop are [n] ticks
    of the monitor: filling and showing the frame take nothing from the
    clock and leave the counter alone, so the counter, the clock readings
    used and the lines added to the console are those of [fps_ticks]. *)
Theorem passes_run_monitor (E : Env) (n : nat) : forall w,
  buffer_ok w -> streaming w = true ->
  (forall j, (j < n)%nat ->
     env_streaming E (frame_no w + N.of_nat j) <> Some false) ->
  exists w', passes E n w = Done w' /\
    (counter w', clock_calls w')
    = (fps_ticks E (N.of_nat n) (counter w) (clock_calls w)).1 /\
    console w'
    = console w ++ (fps_ticks E (N.of_nat n) (counter w) (clock_calls w)).2.
Proof. exact (passes_ticks E n). Qed.

Lemma passes_run_monitor_witness :
  exists w', passes (stop_env 5) 2 (setup (stop_env 5) []) = Done w' /\
    (counter w', clock_calls w')
    = (fps_ticks (stop_env 5) (N.of_nat 2)
         (counter (setup (stop_env 5) []))
         (clock_calls (setup (stop_env 5) []))).1 /\
    console w'
    = console (setup (stop_env 5) [])
      ++ (fps_ticks (stop_env 5) (N.of_nat 2)
            (counter (setup (stop_env 5) []))
            (clock_calls (setup (stop_env 5) []))).2.
Proof.
  apply (passes_run_monitor (stop_env 5) 2 (setup (stop_env 5) [])).
  - apply setup_buffer_ok.
  - reflexivity.
  - intros j Hj. cbn [env_streaming stop_env].
    destruct (setup_monitor (stop_env 5) []) as (_ & _ & _ & -> & _).
    destruct (N.eqb_spec (0 + N.of_nat j) 5) as [Heq|Hne];
      [lia | discriminate].
Defined.

(** ** Further properties of the frame source *)

Section FillPixels.

Context (E : Env).

Lemma draws_lookup c k (j : nat) :
  (j < k)%nat ->
  draws E c k !! j = Some (noise (env_rand E (c + N.of_nat j))).
Proof.
  intros Hj. unfold draws.
  by rewrite list_lookup_fmap, lookup_seq_lt.
Qed.

(** A loop whose bound lies beyond the array fills the array to its end and
    then writes past it. *)
Lemma fill_loop_overrun k : forall fuel bound i w,
  0 <= i -> i + Z.of_nat k = Z.of_nat (length (img_raw w)) ->
  i + Z.of_nat k < bound -> bound <= UINT_MAX ->
  (k < fuel)%nat ->
  fill_loop E fuel bound i w = Undefined.
Proof.
  induction k as [|k IH]; intros fuel bound i w Hi Hlen Hlt Hmax Hfuel;
    (destruct fuel as [|fuel]; [lia|]); cbn [fill_loop];
    (destruct (Z.ltb_spec i bound); [|lia]); unfold fill_body, rand.
  - rewrite store_out_of_bounds by (simpl; lia). reflexivity.
  - rewrite store_in_bounds by (simpl; lia). rewrite bind_Done.
    rewrite uint_incr_small by lia.
    apply (IH fuel bound (i + 1)); [lia | | lia | lia | lia].
    simpl. rewrite length_insert. lia.
Qed.

End FillPixels.

(** X1.  On an array of at least [width * height] pixels the fill loop
    makes pixel number [i], for every [i] below [width * height], from draw
    number [i] of the draws it takes, leaves the pixels from
    [width * height] on as they were, takes exactly [width * height] draws,
    and touches nothing but [img_raw] (and the count of draws). *)
Theorem fill_pixel_by_pixel (E : Env) (width height : Z) (w : World) :
  0 <= width * height <= INT_MAX ->
  width * height <= Z.of_nat (length (img_raw w)) ->
  exists w',
    fill E width height w = Done w' /\
    (forall i, 0 <= i < width * height ->
       img_raw w' !! Z.to_nat i
       = Some (noise (env_rand E (rand_calls w + Z.to_N i)))) /\
    (forall i : nat, (Z.to_nat (width * height) <= i)%nat ->
       img_raw w' !! i = img_raw w !! i) /\
    rand_calls w' = (rand_calls w + Z.to_N (width * height))%N /\
    (img_data w', streaming w', counter w', clock_calls w', frame_no w',
     windows w', shown w', console w')
    = (img_data w, streaming w, counter w, clock_calls w, frame_no w,
       windows w, shown w, console w).
Proof.
  intros Hn Hlen.
  assert (Hfill := fill_filled E width height w Hn Hlen).
  set (m := Z.to_nat (width * height)) in *.
  assert (Hm : width * height = Z.of_nat m) by lia. clearbody m.
  exists (filled E 0 m w). split; [exact Hfill|].
  unfold filled. cbn [img_raw rand_calls with_img_raw with_rand_calls
    img_data streaming counter clock_calls frame_no windows shown console].
  rewrite take_0, app_nil_l, Nat.add_0_l.
  split; [|split; [|split; [lia | reflexivity]]].
  - intros i Hi. rewrite lookup_app_l by (rewrite draws_length; lia).
    rewrite draws_lookup by lia. do 3 f_equal. lia.
  - intros i Hi. rewrite lookup_app_r by (rewrite draws_length; lia).
    rewrite draws_length, lookup_drop. f_equal. lia.
Qed.

Lemma fill_pixel_by_pixel_witness :
  exists w',
    fill (stop_env 0) 2 2 small_world = Done w' /\
    (forall i, 0 <= i < 2 * 2 ->
       img_raw w' !! Z.to_nat i
       = Some (noise (env_rand (stop_env 0)
                               (rand_calls small_world + Z.to_N i)))) /\
    (forall i : nat, (Z.to_nat (2 * 2) <= i)%nat ->
       img_raw w' !! i = img_raw small_world !! i) /\
    rand_calls w' = (rand_calls small_world + Z.to_N (2 * 2))%N /\
    (img_data w', streaming w', counter w', clock_calls w', frame_no w',
     windows w', shown w', console w')
    = (img_data small_world, streaming small_world, counter small_world,
       clock_calls small_world, frame_no small_world, windows small_world,
       shown small_world, console small_world).
Proof.
  apply (fill_pixel_by_pixel (stop_env 0) 2 2 small_world).
  - unfold INT_MAX. lia.
  - simpl. lia.
Defined.

(** X2.  Nothing in the loop checks its bound against the array: for a
    bound [width * height] that is an [int] and not negative, the fill is
    defined exactly when the array has at least [width * height] pixels,
    and is undefined behaviour, an access past the end of the array, on
    every shorter array. *)
Theorem fill_short_buffer_undefined (E : Env) (width height : Z) (w : World) :
  0 <= width * height <= INT_MAX ->
  (Z.of_nat (length (img_raw w)) < width * height <->
   fill E width height w = Undefined) /\
  (width * height <= Z.of_nat (length (img_raw w)) <->
   exists w', fill E width height w = Done w').
Proof.
  intros [Hmin Hmax].
  assert (Hshort : Z.of_nat (length (img_raw w)) < width * height ->
                   fill E width height w = Undefined).
  { intros Hlt. unfold fill.
    rewrite int_mul_small by (unfold INT_MIN, INT_MAX in *; lia).
    rewrite to_uint_small by (unfold INT_MAX, UINT_MAX in *; lia).
    apply (fill_loop_overrun E (length (img_raw w)));
      unfold INT_MAX, UINT_MAX in *; lia. }
  assert (Hlong : width * height <= Z.of_nat (length (img_raw w)) ->
                  exists w', fill E width height w = Done w').
  { intros Hle. eexists. by apply fill_filled. }
  split; split; [exact Hshort | | exact Hlong |].
  - intros Hundef.
    destruct (Z.lt_ge_cases (Z.of_nat (length (img_raw w))) (width * height))
      as [Hlt|Hge]; [done|].
    destruct (Hlong Hge) as [w' Hw']. congruence.
  - intros [w' Hw'].
    destruct (Z.lt_ge_cases (Z.of_nat (length (img_raw w))) (width * height))
      as [Hlt|Hge]; [|done].
    rewrite (Hshort Hlt) in Hw'. discriminate.
Qed.

Lemma fill_short_buffer_undefined_witness :
  (Z.of_nat (length (img_raw small_world)) < 4 * 2 <->
   fill (stop_env 0) 4 2 small_world = Undefined) /\
  (4 * 2 <= Z.of_nat (length (img_raw small_world)) <->
   exists w', fill (stop_env 0) 4 2 small_world = Done w').
Proof.
  apply (fill_short_buffer_undefined (stop_env 0) 4 2 small_world).
  unfold INT_MAX. lia.
Defined.

(** ** Further properties of the loop *)

Section PassPixels.

Context (E : Env).

(** A pass overwrites the whole array with its draws. *)
Lemma filled_whole_buffer w :
  buffer_ok w ->
  img_raw (filled E 0 (Z.to_nat (cols * rows)) w)
  = draws E (rand_calls w) (Z.to_nat (cols * rows)).
Proof.
  unfold buffer_ok. intros Hlen. unfold filled.
  cbn [img_raw with_img_raw].
  rewrite take_0, app_nil_l, Nat.add_0_l.
  rewrite drop_ge by lia. apply app_nil_r.
Qed.

Lemma pass_img_raw w :
  buffer_ok w ->
  img_raw (pass E w) = draws E (rand_calls w) (Z.to_nat (cols * rows)).
Proof.
  intros Hlen. unfold pass, end_of_iteration. cbn [img_raw with_streaming].
  destruct (update_fps_program E
    (displayed (filled E 0 (Z.to_nat (cols * rows)) w))) as [-> _].
  cbn [displayed with_display img_raw]. by apply filled_whole_buffer.
Qed.

Lemma pass_shown_frame w :
  buffer_ok w ->
  shown_frame (filled E 0 (Z.to_nat (cols * rows)) w)
  = mkFrame rows cols (draws E (rand_calls w) (Z.to_nat (cols * rows))).
Proof.
  intros Hlen. unfold shown_frame. rewrite filled_whole_buffer by done.
  pose proof cols_rows.
  rewrite take_ge by (rewrite draws_length; lia). reflexivity.
Qed.

Lemma pass_windows w :
  windows (pass E w)
  = <[window_title :=
        Some (shown_frame (filled E 0 (Z.to_nat (cols * rows)) w))]>
      (windows w).
Proof.
  unfold pass, end_of_iteration. cbn [windows with_streaming].
  destruct (update_fps_program E
    (displayed (filled E 0 (Z.to_nat (cols * rows)) w)))
    as (_ & _ & _ & _ & _ & -> & _).
  reflexivity.
Qed.

Lemma pass_img_data w : img_data (pass E w) = img_data w.
Proof.
  unfold pass, end_of_iteration. cbn [img_data with_streaming].
  destruct (update_fps_program E
    (displayed (filled E 0 (Z.to_nat (cols * rows)) w)))
    as (_ & -> & _).
  reflexivity.
Qed.

Lemma setup_display heap :
  windows (setup E heap) = {[window_title := None]} /\
  img_data (setup E heap) = heap.
Proof.
  unfold setup, namedWindow. cbn [boot windows].
  rewrite lookup_empty. cbn. by rewrite insert_empty.
Qed.

End PassPixels.

(** X3.  The frames handed to the display are the draws, in their order and
    nothing else: at every boundary of the loop, frame number [j] shown is
    400 by 1000 and holds the pixels of the draws [400000 * j], ...,
    [400000 * j + 399999]; [400000] draws have been made per pass; and once
    a pass is made [img_raw] holds the frame shown last, with no pixel left
    over from an earlier frame or from the zeros it starts with. *)
Theorem frames_shown_are_the_draws (E : Env) (heap : list Z) (n : nat) :
  exists w, passes E n (setup E heap) = Done w /\
    rand_calls w = (frame_no w * 400000)%N /\
    shown w
    = (fun j => (window_title, frame_of_pass E j))
        <$> seq 0 (N.to_nat (frame_no w)) /\
    (frame_no w <> 0%N ->
     Some (window_title,
           mkFrame rows cols (img_raw w)) = last (shown w)).
Proof.
  pose proof cols_rows as Hn.
  destruct (passes_invariant E (fun w =>
      rand_calls w = (frame_no w * 400000)%N /\
      shown w = (fun j => (window_title, frame_of_pass E j))
                  <$> seq 0 (N.to_nat (frame_no w)) /\
      (frame_no w <> 0%N ->
       Some (window_title, mkFrame rows cols (img_raw w)) = last (shown w))))
    with (n := n) (w := setup E heap) as (w & Hw & Hinv & _).
  - intros w (Hcalls & Hshown & _) Hlen _.
    rewrite pass_rand_calls, pass_frame_no, pass_shown, pass_img_raw,
      pass_shown_frame, last_snoc by done.
    split; [lia|]. split; [|done].
    replace (N.to_nat (N.succ (frame_no w)))
      with (N.to_nat (frame_no w) + 1)%nat by lia.
    rewrite seq_app, fmap_app, <- Hshown. cbn [seq fmap list_fmap].
    unfold frame_of_pass. rewrite Hcalls.
    replace (N.of_nat (0 + N.to_nat (frame_no w)) * 400000)%N
      with (frame_no w * 400000)%N by lia.
    reflexivity.
  - destruct (setup_monitor E heap)
      as (_ & _ & _ & -> & _ & _ & -> & ->). done.
  - apply setup_buffer_ok.
  - by exists w.
Qed.

(** X4.  The program has one window, the one it creates before the loop:
    at every boundary of the loop the only window is the one titled
    ["PtGrey Live Feed"], empty before the first pass and showing the frame
    handed to [imshow] last from then on. *)
Theorem one_window_shows_last_frame (E : Env) (heap : list Z) (n : nat) :
  exists w, passes E n (setup E heap) = Done w /\
    dom (windows w) = {[window_title]} /\
    windows w !! window_title = Some (snd <$> last (shown w)).
Proof.
  destruct (passes_invariant E (fun w =>
      windows w = {[window_title := snd <$> last (shown w)]}))
    with (n := n) (w := setup E heap) as (w & Hw & Hinv & _).
  - intros w Hwin _ _.
    rewrite pass_windows, pass_shown, last_snoc, Hwin. cbn [fmap option_fmap option_map snd].
    apply insert_singleton_eq.
  - destruct (setup_display E heap) as [-> _].
    by destruct (setup_monitor E heap) as (_ & _ & _ & _ & _ & _ & -> & _).
  - apply setup_buffer_ok.
  - exists w. split; [done|]. rewrite Hinv. split.
    + apply dom_singleton_L.
    + apply lookup_singleton_eq.
Qed.

(** X5.  The clock is read once before the loop, once in every pass and
    once more in every pass that reports: at every boundary of the loop the
    number of readings is one more than the passes made and the lines
    printed together. *)
Theorem clock_readings_counted (E : Env) (heap : list Z) (n : nat) :
  exists w, passes E n (setup E heap) = Done w /\
    clock_calls w
    = (1 + frame_no w + N.of_nat (length (console w)))%N.
Proof.
  destruct (passes_invariant E (fun w =>
      clock_calls w = (1 + frame_no w + N.of_nat (length (console w)))%N))
    with (n := n) (w := setup E heap) as (w & Hw & Hinv & _).
  - intros w Hcalls _ _.
    pose proof (pass_monitor E w) as Hmon. unfold tick_acc, fps_tick in Hmon.
    rewrite pass_frame_no.
    destruct (_ >? _);
      pose proof (f_equal (fun p => p.1.2) Hmon) as Hk;
      pose proof (f_equal snd Hmon) as Hout;
      cbn [fst snd] in Hk, Hout; rewrite Hk, Hout, length_app, Hcalls;
      cbn [printed length]; lia.
  - by destruct (setup_monitor E heap) as (_ & -> & -> & -> & _).
  - apply setup_buffer_ok.
  - by exists w.
Qed.

(** ** The pixels of the global [img] *)

Section GlobalImg.

Context (E : Env).

Lemma fill_loop_img_data fuel : forall bound i w h,
  fill_loop E fuel bound i (with_img_data h w)
  = (w' ← fill_loop E fuel bound i w; mret (with_img_data h w')).
Proof.
  induction fuel as [|fuel IH]; intros bound i w h; cbn [fill_loop]; [done|].
  destruct (i <? bound); [|done].
  unfold fill_body, rand, store. cbn [img_raw with_img_data with_rand_calls].
  destruct (_ && _); [|done]. rewrite !bind_Done, <- IH. reflexivity.
Qed.

Lemma iteration_img_data w h :
  iteration E (with_img_data h w)
  = (w' ← iteration E w; mret (with_img_data h w')).
Proof.
  unfold iteration, fill. rewrite fill_loop_img_data.
  destruct (fill_loop E _ _ 0 w) as [w1| |]; [|done|done].
  rewrite !bind_Done. unfold present, imshow.
  cbn [mat_rows mat_cols mat_data load img_raw with_img_data].
  destruct (_ <=? _); [|done]. rewrite !bind_Done.
  unfold waitKey, update_fps.
  cbn [counter clock_calls with_display with_img_data].
  by destruct (fps_tick E (counter w1) (clock_calls w1)) as [[c k] r].
Qed.

Lemma while_streaming_img_data fuel : forall w h,
  while_streaming E fuel (with_img_data h w)
  = (w' ← while_streaming E fuel w; mret (with_img_data h w')).
Proof.
  induction fuel as [|fuel IH]; intros w h; cbn [while_streaming]; [done|].
  cbn [streaming with_img_data]. destruct (streaming w); [|done].
  rewrite iteration_img_data.
  destruct (iteration E w) as [w1| |]; [|done|done].
  rewrite !bind_Done, <- IH. reflexivity.
Qed.

Lemma setup_img_data heap h :
  setup E h = with_img_data h (setup E heap).
Proof.
  unfold setup, namedWindow. cbn [boot windows]. rewrite lookup_empty.
  reflexivity.
Qed.

End GlobalImg.

(** X6.  The pixels that the global [Mat img(rows, cols, CV_8UC1)] allocates
    are never used: the header built in the loop body hides it, so whatever
    those pixels hold, the frames shown, the lines printed and the exit code
    are the same, and at every boundary of the loop they are what they were
    when [main] was entered. *)
Theorem global_img_never_used (E : Env) (fuel n : nat) (heap heap' : list Z) :
  observable (main E fuel heap) = observable (main E fuel heap') /\
  exists w, passes E n (setup E heap) = Done w /\ img_data w = heap.
Proof.
  split.
  - unfold main. rewrite (setup_img_data E heap heap').
    rewrite while_streaming_img_data.
    by destruct (while_streaming E fuel (setup E heap)) as [w| |].
  - destruct (passes_invariant E (fun w => img_data w = heap))
      with (n := n) (w := setup E heap) as (w & Hw & Hinv & _).
    + intros w Hdata _ _. by rewrite pass_img_data.
    + by destruct (setup_display E heap) as [_ ->].
    + apply setup_buffer_ok.
    + by exists w.
Qed.

(** ** Further properties of the rate monitor *)

(** The time of the last report has to be a reading made before: measured
    from a time that is 2^64 ns - 2 s - 1 ns ahead of the clock the
    elapsed time wraps to two seconds, and the report sets the time back. *)
Example report_on_wrapped_time :
  fps_tick (still_env 0 (INT64_MIN + 2000000000))
           (mkRateCounter INT64_MAX 5) 0
  = (mkRateCounter (INT64_MIN + 2000000000) 0, 2%N, Some 5).
Proof. reflexivity. Qed.

(** X7.  With a clock that never goes back, and a time of the last report
    that is not ahead of the clock, every report moves the time of the
    last report on by more than a second, and counting leaves it as it is:
    after any number of ticks the clock time between the first and the
    last report time is more than one second for every number printed, so
    lines are printed less often than once a second. *)
Theorem reports_more_than_a_second_apart (E : Env) (n : N) (c : RateCounter)
    (k : N) :
  clock_monotone E ->
  time_of_last_fps_calculation c <= env_now E k ->
  (ns_per_second + 1) * Z.of_nat (length (fps_ticks E n c k).2)
  <= time_of_last_fps_calculation (fps_ticks E n c k).1.1
     - time_of_last_fps_calculation c.
Proof.
  intros Hclock Hpast.
  assert (Hboth :
    (ns_per_second + 1) * Z.of_nat (length (fps_ticks E n c k).2)
    <= time_of_last_fps_calculation (fps_ticks E n c k).1.1
       - time_of_last_fps_calculation c /\
    time_of_last_fps_calculation (fps_ticks E n c k).1.1
    <= env_now E (fps_ticks E n c k).1.2); [|by destruct Hboth].
  induction n as [|n IH] using N.peano_ind.
  - cbn. lia.
  - rewrite fps_ticks_succ.
    destruct (fps_ticks E n c k) as [[c' k'] out]. cbn [fst snd] in IH.
    destruct IH as [IH Hpast']. unfold tick_acc, fps_tick.
    pose proof (to_int64_le (env_now E k' - time_of_last_fps_calculation c')
                  ltac:(lia)) as Hwrap.
    fold (elapsed_ns (env_now E k') (time_of_last_fps_calculation c'))
      in Hwrap.
    pose proof (Hclock k') as Hnext. pose proof (Hclock (N.succ k')) as Hnext'.
    destruct (Z.gtb_spec
                (elapsed_ns (env_now E k') (time_of_last_fps_calculation c'))
                ns_per_second) as [Hgt|Hle];
      cbn [fst snd time_of_last_fps_calculation printed].
    + rewrite length_app. cbn [length]. lia.
    + rewrite app_nil_r. lia.
Qed.

Lemma reports_more_than_a_second_apart_witness :
  (ns_per_second + 1)
    * Z.of_nat (length (fps_ticks (late_env 3) 8 (mkRateCounter 0 0) 0).2)
  <= time_of_last_fps_calculation
       (fps_ticks (late_env 3) 8 (mkRateCounter 0 0) 0).1.1
     - time_of_last_fps_calculation (mkRateCounter 0 0).
Proof.
  apply (reports_more_than_a_second_apart (late_env 3) 8 (mkRateCounter 0 0) 0).
  - intros j. cbn [env_now late_env]. unfold ns_per_second.
    destruct (N.ltb_spec j 3), (N.ltb_spec (N.succ j) 3); lia.
  - vm_compute. discriminate.
Defined.

Section SteadyTally.

Context (E : Env).

(** A clock that moves on from reading [a] to reading [b]. *)
Lemma clock_advances_le a b :
  clock_advances E -> (a <= b)%N -> env_now E a <= env_now E b.
Proof.
  intros Hclock Hab. replace b with (a + (b - a))%N by lia.
  generalize (b - a)%N as d. clear b Hab.
  induction d as [|d IH] using N.peano_ind.
  - rewrite N.add_0_r. lia.
  - pose proof (Hclock (a + d)%N) as Hnext.
    replace (a + N.succ d)%N with (N.succ (a + d)) by lia. lia.
Qed.

Lemma pass_tally_within_second w :
  clock_advances E ->
  env_now E (clock_calls w)
    - time_of_last_fps_calculation (counter w) <= INT64_MAX ->
  tally_within_second E w -> tally_within_second E (pass E w).
Proof.
  intros Hclock Hspan (Hk & Htally & Hsec & Hout & Hsum).
  unfold tally_within_second.
  pose proof (pass_monitor E w) as Hmon. unfold tick_acc, fps_tick in Hmon.
  pose proof (Hclock (N.pred (clock_calls w))) as Hnext.
  rewrite N.succ_pred in Hnext by lia.
  rewrite elapsed_ns_exact in Hmon by (unfold INT64_MIN; lia).
  rewrite pass_frame_no.
  destruct (Z.gtb_spec (env_now E (clock_calls w)
                        - time_of_last_fps_calculation (counter w))
              ns_per_second) as [Hgt|Hle];
    pose proof (f_equal (fun p => p.1.1) Hmon) as Hc;
    pose proof (f_equal (fun p => p.1.2) Hmon) as Hcalls;
    pose proof (f_equal snd Hmon) as Hcon;
    cbn [fst snd] in Hc, Hcalls, Hcon; rewrite Hc, Hcalls, Hcon;
    cbn [time_of_last_fps_calculation frames_since_last_fps_calculation
         printed].
  - rewrite N.pred_succ, total_snoc, length_app. cbn [length].
    split; [lia|]. split; [lia|]. split; [unfold ns_per_second; lia|].
    split; [|lia]. apply Forall_app. split; [done|].
    apply Forall_singleton. lia.
  - rewrite N.pred_succ, app_nil_r.
    rewrite int_incr_small
      by (unfold INT_MIN, INT_MAX, ns_per_second in *; lia).
    split; [lia|]. split; [lia|]. split; [lia|]. split; [done|lia].
Qed.

(** The passes that use the readings up to number [top]. *)
Lemma passes_tally_within_second top n : forall w,
  clock_advances E ->
  buffer_ok w -> tally_within_second E w ->
  (N.pred (clock_calls w) + 2 * N.of_nat n <= top)%N ->
  env_now E top - time_of_last_fps_calculation (counter w) <= INT64_MAX ->
  exists w', passes E n w = Done w' /\ tally_within_second E w'.
Proof.
  intros w Hclock. revert w.
  induction n as [|n IH]; intros w Hlen Hw Htop Hspan.
  - by exists w.
  - rewrite passes_S by done. destruct (streaming w); [|by exists w].
    pose proof Hw as (Hk & Htally & _).
    pose proof (clock_advances_le (N.pred (clock_calls w)) (clock_calls w)
                  Hclock ltac:(lia)) as Hnow.
    pose proof (clock_advances_le (clock_calls w) top Hclock ltac:(lia))
      as Hcur.
    pose proof (clock_advances_le (N.succ (clock_calls w)) top Hclock
                  ltac:(lia)) as Hsucc.
    pose proof (clock_advances_le (clock_calls w) (N.succ (clock_calls w))
                  Hclock ltac:(lia)) as Hstep.
    pose proof (pass_monitor E w) as Hmon. unfold tick_acc, fps_tick in Hmon.
    apply IH.
    + by apply pass_buffer_ok.
    + apply pass_tally_within_second; [done | lia | done].
    + destruct (_ >? _);
        pose proof (f_equal (fun p => p.1.2) Hmon) as Hcalls;
        cbn [fst snd] in Hcalls; rewrite Hcalls; lia.
    + destruct (_ >? _);
        pose proof (f_equal (fun p => p.1.1) Hmon) as Hc;
        cbn [fst snd] in Hc; rewrite Hc;
        cbn [time_of_last_fps_calculation]; lia.
Qed.

Lemma setup_tally_within_second heap : tally_within_second E (setup E heap).
Proof.
  red. destruct (setup_monitor E heap) as (-> & -> & -> & -> & _).
  cbn [time_of_last_fps_calculation frames_since_last_fps_calculation].
  replace (N.pred 1) with 0%N by lia. cbn [total foldr length].
  split; [lia|]. split; [lia|]. split; [unfold ns_per_second; lia|].
  split; [constructor | lia].
Qed.

End SteadyTally.

(** X8.  With a clock that has moved on whenever it is read again, by a
    nanosecond at least, and that stays within 2^63 ns of its first reading
    for the readings that [n] passes can make, the tally never leaves the
    range of [int]: after [n] passes, or fewer if the loop has ended, the
    tally is between [0] and [10^9], every number printed is between [0]
    and [10^9], and the numbers printed, the tally and one for every report
    add up to the passes made. *)
Theorem tally_stays_within_int (E : Env) (heap : list Z) (n : nat) :
  clock_advances E ->
  env_now E (2 * N.of_nat n) - env_now E 0 <= INT64_MAX ->
  exists w, passes E n (setup E heap) = Done w /\
    0 <= frames_since_last_fps_calculation (counter w) <= 1000000000 /\
    Forall (fun v => 0 <= v <= 1000000000) (console w) /\
    total (console w) + frames_since_last_fps_calculation (counter w)
    = Z.of_N (frame_no w) - Z.of_nat (length (console w)).
Proof.
  intros Hclock Hspan.
  destruct (passes_tally_within_second E (2 * N.of_nat n) n (setup E heap))
    as (w & Hw & (Hk & Htally & Hsec & Hout & Hsum)).
  - done.
  - apply setup_buffer_ok.
  - apply setup_tally_within_second.
  - destruct (setup_monitor E heap) as (_ & -> & _). lia.
  - by destruct (setup_monitor E heap) as (-> & _).
  - exists w. unfold ns_per_second in *. split; [done|]. split; [lia|].
    split; [done | done].
Qed.

Lemma tally_stays_within_int_witness :
  exists w, passes pace_env 3 (setup pace_env []) = Done w /\
    0 <= frames_since_last_fps_calculation (counter w) <= 1000000000 /\
    Forall (fun v => 0 <= v <= 1000000000) (console w) /\
    total (console w) + frames_since_last_fps_calculation (counter w)
    = Z.of_N (frame_no w) - Z.of_nat (length (console w)).
Proof.
  apply (tally_stays_within_int pace_env [] 3).
  - intros j. cbn [env_now pace_env]. lia.
  - vm_compute. discriminate.
Defined.

(** The passes of the witness do report: the second pass prints [1]. *)
Example pace_env_reports :
  fps_ticks pace_env 3 (mkRateCounter 0 0) 1
  = (mkRateCounter 1800000000 1, 5%N, [1]).
Proof. vm_compute. reflexivity. Qed.

(** ** A loop nobody stops *)

Section NeverEnds.

Context (E : Env).

Lemma passes_all_made n : forall w,
  buffer_ok w -> streaming w = true ->
  (forall j, env_streaming E j <> Some false) ->
  exists w', passes E n w = Done w' /\
    frame_no w' = (frame_no w + N.of_nat n)%N /\ streaming w' = true.
Proof.
  induction n as [|n IH]; intros w Hlen Hs Hup.
  - exists w. cbn [passes]. split; [done|]. split; [lia | done].
  - rewrite passes_S, Hs by done.
    destruct (IH (pass E w)) as (w' & Hrun & Hno & Hon).
    + by apply pass_buffer_ok.
    + rewrite pass_streaming, Hs. specialize (Hup (frame_no w)).
      by destruct (env_streaming E (frame_no w)) as [[]|].
    + done.
    + exists w'. rewrite pass_frame_no in Hno.
      split; [done|]. split; [lia | done].
Qed.

End NeverEnds.

(** X10.  Nothing in the program writes [streaming]: unless the flag is
    cleared from outside the loop never ends.  For every number of steps
    [main] is still running, and every pass is made: after [n] passes the
    flag is still up and [n] frames have been processed. *)
Theorem loop_never_ends_by_itself (E : Env) (heap : list Z) :
  (forall j, env_streaming E j <> Some false) ->
  (forall fuel, main E fuel heap = Running) /\
  (forall n, exists w,
     passes E n (setup E heap) = Done w /\
     frame_no w = N.of_nat n /\ streaming w = true).
Proof.
  intros Hup.
  destruct (setup_monitor E heap) as (_ & _ & _ & Hno & Hs & _).
  split.
  - intros fuel. unfold main.
    rewrite (while_streaming_running E fuel fuel);
      [done | apply setup_buffer_ok | done | intros; apply Hup | lia].
  - intros n.
    destruct (passes_all_made E n (setup E heap)) as (w & Hrun & Hw & Hon);
      [apply setup_buffer_ok | done | done |].
    exists w. split; [done|]. split; [lia | done].
Qed.

Lemma loop_never_ends_by_itself_witness :
  (forall fuel, main (still_env 0 0) fuel [] = Running) /\
  (forall n, exists w,
     passes (still_env 0 0) n (setup (still_env 0 0) []) = Done w /\
     frame_no w = N.of_nat n /\ streaming w = true).
Proof.
  apply (loop_never_ends_by_itself (still_env 0 0) []).
  intros j. cbn [env_streaming still_env]. discriminate.
Defined.

(** ** How often a pixel value is drawn *)

Section PixelCounts.

Lemma occurrences_succ (m v : Z) :
  -1 <= m ->
  occurrences (m + 1) v
  = (occurrences m v + if decide (noise (m + 1) = v) then 1 else 0)%nat.
Proof.
  intros Hm. unfold occurrences.
  replace (m + 1 + 1) with ((m + 1) + 1) by lia.
  rewrite (seqZ_app 0 (m + 1) 1) by lia.
  rewrite filter_app, length_app. f_equal.
  change (seqZ (0 + (m + 1)) 1) with [0 + (m + 1)].
  rewrite Z.add_0_l, filter_cons.
  by destruct (decide (noise (m + 1) = v)).
Qed.

End PixelCounts.

(** X11.  Among the draws [0], ..., [rand_max] the pixel [v], for [v] from
    [0] to [254], is made by the draws [v], [v + 255], [v + 510], ...: by
    [(rand_max - v + 255) / 255] draws.  So two pixel values are made by
    the same number of draws or by numbers of draws that differ by one; for
    [RAND_MAX = 2147483647] the pixels [0] to [127] are made by 8421505
    draws each and the pixels [128] to [254] by 8421504. *)
Theorem pixel_draw_count (rand_max v : Z) :
  0 <= v <= 254 -> 0 <= rand_max <= INT_MAX ->
  Z.of_nat (occurrences rand_max v) = (rand_max - v + 255) / 255.
Proof.
  intros Hv [Hmin Hmax].
  assert (Hall : forall m, -1 <= m -> m <= INT_MAX ->
    Z.of_nat (occurrences m v) = (m - v + 255) / 255).
  { intros m Hm. replace m with (-1 + (m + 1)) by lia.
    assert (0 <= m + 1) as Hpos by lia. revert Hpos.
    generalize (m + 1) as d. clear m Hm.
    apply (natlike_ind (fun d => -1 + d <= INT_MAX ->
      Z.of_nat (occurrences (-1 + d) v) = (-1 + d - v + 255) / 255)).
    - intros _. change (Z.of_nat (occurrences (-1 + 0) v)) with 0.
      symmetry. apply Z.div_small. lia.
    - intros d Hd IH Hdmax.
      replace (-1 + Z.succ d) with ((-1 + d) + 1) by lia.
      rewrite occurrences_succ by lia.
      rewrite Nat2Z.inj_add, IH by lia.
      destruct (noise_spec (-1 + d + 1)) as [Hnoise _]; [lia|].
      rewrite Hnoise.
      destruct (decide ((-1 + d + 1) mod 255 = v)) as [Heq|Hne];
        cbn [Z.of_nat]; Z.div_mod_to_equations; lia. }
  apply Hall; lia.
Qed.

Lemma pixel_draw_count_witness :
  Z.of_nat (occurrences 2147483647 127) = 8421505 /\
  Z.of_nat (occurrences 2147483647 128) = 8421504.
Proof.
  split.
  - apply (pixel_draw_count 2147483647 127); unfold INT_MAX; lia.
  - apply (pixel_draw_count 2147483647 128); unfold INT_MAX; lia.
Defined.

(** ** Counting frames: the claim *)

Section TallyNoOverflow.

Context (E : Env).

Lemma pass_tally_no_overflow w :
  ~ tally_overflows E w ->
  tally_adds_up w ->
  frames_since_last_fps_calculation (counter w) <= INT_MAX ->
  tally_adds_up (pass E w) /\
  frames_since_last_fps_calculation (counter (pass E w)) <= INT_MAX.
Proof.
  intros Hsafe (Hpos & Hout & Hsum) Hmax. unfold tally_adds_up.
  pose proof (total_nonneg _ Hout) as Htot.
  pose proof (pass_monitor E w) as Hmon. unfold tick_acc, fps_tick in Hmon.
  rewrite pass_frame_no.
  destruct (Z.gtb_spec
              (elapsed_ns (env_now E (clock_calls w))
                          (time_of_last_fps_calculation (counter w)))
              ns_per_second) as [Hgt|Hle];
    pose proof (f_equal (fun p => p.1.1) Hmon) as Hc;
    pose proof (f_equal snd Hmon) as Hcon;
    cbn [fst snd] in Hc, Hcon; rewrite Hc, Hcon;
    cbn [frames_since_last_fps_calculation printed].
  - rewrite total_snoc, length_app. cbn [length].
    split; [|unfold INT_MAX; lia].
    split; [lia|]. split; [|lia].
    apply Forall_app. split; [done|]. by apply Forall_singleton.
  - assert (frames_since_last_fps_calculation (counter w) <> INT_MAX)
      as Hne by (intros Heq; apply Hsafe; by split).
    rewrite int_incr_small by (unfold INT_MIN; lia).
    rewrite app_nil_r. split; [|lia]. split; [lia|]. split; [done|lia].
Qed.

Lemma passes_no_overflow n : forall w,
  buffer_ok w -> tally_adds_up w ->
  frames_since_last_fps_calculation (counter w) <= INT_MAX ->
  (forall m w', (m < n)%nat -> passes E m w = Done w' ->
     streaming w' = true -> ~ tally_overflows E w') ->
  exists w', passes E n w = Done w' /\ tally_adds_up w'.
Proof.
  induction n as [|n IH]; intros w Hlen Hw Hmax Hsafe.
  - by exists w.
  - rewrite passes_S by done. destruct (streaming w) eqn:Hs; [|by exists w].
    destruct (pass_tally_no_overflow w) as [Hw' Hmax']; [|done|done|].
    { apply (Hsafe 0%nat); [lia | reflexivity | done]. }
    apply IH; [by apply pass_buffer_ok | done | done |].
    intros m w' Hm Hrun. apply (Hsafe (S m)); [lia|].
    by rewrite passes_S, Hs by done.
Qed.

End TallyNoOverflow.

(** C4 (as amended).  Every tick either counts the frame, putting the
    tally up by one as an [int] and leaving the time of the last report as
    it is, or reports, printing the tally as it stands and setting it to
    [0]: the frame of a reporting pass is counted in no window.  So, as
    long as no pass has counted a frame with the tally at [INT_MAX], at
    every boundary of the loop the numbers printed and the current tally
    add up to the passes made less the number of reports. *)
Theorem each_pass_counts_or_reports (E : Env) (heap : list Z) (n : nat) :
  (forall m w', (m < n)%nat -> passes E m (setup E heap) = Done w' ->
     streaming w' = true -> ~ tally_overflows E w') ->
  (forall c k,
     match fps_tick E c k with
     | (c', _, None) =>
         frames_since_last_fps_calculation c'
         = int_incr (frames_since_last_fps_calculation c) /\
         time_of_last_fps_calculation c' = time_of_last_fps_calculation c
     | (c', _, Some v) =>
         v = frames_since_last_fps_calculation c /\
         frames_since_last_fps_calculation c' = 0
     end) /\
  exists w, passes E n (setup E heap) = Done w /\
    total (console w) + frames_since_last_fps_calculation (counter w)
    = Z.of_N (frame_no w) - Z.of_nat (length (console w)).
Proof.
  intros Hsafe. split; [apply fps_tick_cases|].
  destruct (passes_no_overflow E n (setup E heap))
    as (w & Hw & _ & _ & Hsum).
  - apply setup_buffer_ok.
  - apply setup_tally_adds_up.
  - destruct (setup_monitor E heap) as (-> & _).
    cbn [frames_since_last_fps_calculation]. unfold INT_MAX. lia.
  - exact Hsafe.
  - by exists w.
Qed.

Lemma each_pass_counts_or_reports_witness :
  exists w, passes pace_env 3 (setup pace_env []) = Done w /\
    total (console w) + frames_since_last_fps_calculation (counter w)
    = Z.of_N (frame_no w) - Z.of_nat (length (console w)).
Proof.
  refine (proj2 (each_pass_counts_or_reports pace_env [] 3 _)).
  intros m w' Hm Hrun _ [Hmax _].
  destruct (passes_ticks pace_env m (setup pace_env []))
    as (w'' & Hrun' & Hmon & _).
  - apply setup_buffer_ok.
  - reflexivity.
  - intros j _. cbn [env_streaming pace_env]. discriminate.
  - rewrite Hrun in Hrun'. injection Hrun' as <-.
    destruct (setup_monitor pace_env []) as (Hc & Hk & _).
    rewrite Hc, Hk in Hmon.
    pose proof (f_equal (fun p => frames_since_last_fps_calculation p.1) Hmon)
      as Htally.
    cbn [fst] in Htally. rewrite Hmax in Htally.
    destruct m as [|[|[|m]]]; [| | |lia]; vm_compute in Htally; discriminate.
Defined.

(** The run of the witness reports: its second pass prints [1], so the
    sum is [1] printed and [1] in the tally for [3] passes and [1]
    report. *)
Example each_pass_counts_or_reports_run :
  exists w, passes pace_env 3 (setup pace_env []) = Done w /\
    console w = [1] /\ frames_since_last_fps_calculation (counter w) = 1.
Proof.
  destruct (passes_ticks pace_env 3 (setup pace_env []))
    as (w & Hrun & Hmon & Hout).
  - apply setup_buffer_ok.
  - reflexivity.
  - intros j _. cbn [env_streaming pace_env]. discriminate.
  - exists w. split; [exact Hrun|].
    destruct (setup_monitor pace_env []) as (Hc & Hk & Hcon & _).
    rewrite Hc, Hk in Hmon, Hout. rewrite Hcon in Hout.
    pose proof (f_equal (fun p => frames_since_last_fps_calculation p.1) Hmon)
      as Htally.
    cbn [fst] in Htally. split; [exact Hout | exact Htally].
Qed.

(** C4 as stated fails while frames are being counted: after one pass
    nothing has been printed and one frame has been processed.  And when a
    pass counts a frame with the tally at [INT_MAX] the tally drops out of
    the sum as well: after 2^31 passes within a second nothing has been
    printed and the tally is -2^31. *)
Lemma reports_miss_current_tally :
  (exists w, passes (still_env 0 0) 1 (setup (still_env 0 0) []) = Done w /\
     total (console w) = 0 /\ frame_no w = 1%N /\ console w = [] /\
     total (console w)
     <> Z.of_N (frame_no w) - Z.of_nat (length (console w))) /\
  (exists w,
     passes (still_env 0 0) (N.to_nat 2147483648) (setup (still_env 0 0) [])
     = Done w /\
     console w = [] /\ frame_no w = 2147483648%N /\
     frames_since_last_fps_calculation (counter w) = -2147483648 /\
     total (console w) + frames_since_last_fps_calculation (counter w)
     <> Z.of_N (frame_no w) - Z.of_nat (length (console w))).
Proof.
  pose proof (setup_buffer_ok (still_env 0 0) []) as Hlen.
  destruct (setup_monitor (still_env 0 0) []) as
    (Hc & Hk & Hout & Hno & Hs & _).
  assert (Hup : forall j, env_streaming (still_env 0 0) j <> Some false)
    by (intros j; cbn [env_streaming still_env]; discriminate).
  split.
  - exists (pass (still_env 0 0) (setup (still_env 0 0) [])).
    rewrite passes_S by exact Hlen. rewrite Hs. cbn [passes].
    pose proof (pass_monitor (still_env 0 0) (setup (still_env 0 0) []))
      as Hmon.
    rewrite Hc, Hk, Hout in Hmon. unfold tick_acc in Hmon.
    rewrite fps_tick_accumulate in Hmon by (vm_compute; discriminate).
    pose proof (f_equal snd Hmon) as Hcon. cbn [fst snd] in Hcon.
    rewrite Hcon, pass_frame_no, Hno. cbn.
    repeat split; discriminate.
  - destruct (passes_ticks (still_env 0 0) (N.to_nat 2147483648)
                (setup (still_env 0 0) []))
      as (w & Hrun & Hmon & Hcon);
      [exact Hlen | exact Hs | intros j _; apply Hup |].
    destruct (passes_all_made (still_env 0 0) (N.to_nat 2147483648)
                (setup (still_env 0 0) []))
      as (w' & Hrun' & Hframes & _);
      [exact Hlen | exact Hs | exact Hup |].
    rewrite Hrun in Hrun'. injection Hrun' as <-.
    rewrite N2Nat.id in Hmon, Hcon, Hframes.
    rewrite Hc, Hk in Hmon, Hcon. rewrite Hout in Hcon. rewrite Hno in Hframes.
    destruct (fps_ticks_accumulate (still_env 0 0) 2147483648
                (mkRateCounter (env_now (still_env 0 0) 0) 0) 1)
      as [Hacc | [[=] _]].
    { intros j _. vm_compute. discriminate. }
    rewrite Hacc in Hmon, Hcon. cbn [fst snd app] in Hmon, Hcon.
    pose proof (f_equal (fun p => frames_since_last_fps_calculation p.1) Hmon)
      as Htally.
    cbn [fst frames_since_last_fps_calculation] in Htally.
    exists w. split; [exact Hrun|]. split; [exact Hcon|].
    split; [exact Hframes|]. split; [exact Htally|].
    rewrite Hcon, Hframes, Htally. discriminate.
Qed.

(** ** The model at work on small inputs *)

Example noise_of_254 : noise 254 = 254.
Proof. reflexivity. Qed.

Example noise_of_255 : noise 255 = 0.
Proof. reflexivity. Qed.

Example noise_of_rand_max : noise 2147483647 = 127.
Proof. reflexivity. Qed.

(** Among the draws [0], ..., [1019] (four times the draws [0] to [254])
    every pixel from [0] to [254] is made four times and [255] never. *)
Example occurrences_1019 :
  occurrences 1019 0 = 4%nat /\ occurrences 1019 254 = 4%nat /\
  occurrences 1019 255 = 0%nat.
Proof. vm_compute. repeat split. Qed.

Example fill_small :
  (fun r => (img_raw <$> r, stores <$> r, rand_calls <$> r))
    (match fill (stop_env 0) 3 2 small_world with
     | Done w => Some w
     | _ => None
     end)
  = (Some [0; 1; 2; 3; 4; 5],
     Some [(0, 0); (1, 1); (2, 2); (3, 3); (4, 4); (5, 5)],
     Some 6%N).
Proof. vm_compute. reflexivity. Qed.

(** A loop bound beyond the array runs into the undefined write. *)
Example fill_too_far : fill (stop_env 0) 7 1 small_world = Undefined.
Proof. vm_compute. reflexivity. Qed.

(** A report reads the clock a second time: the time it keeps is the
    second reading, not the one compared with the second. *)
Example report_reads_clock_again :
  fps_tick (mkEnv (fun _ => 0) (fun j => 2000000000 + Z.of_N j)
                  (fun _ => None))
           (mkRateCounter 0 25) 0
  = (mkRateCounter 2000000001 0, 2%N, Some 25).
Proof. reflexivity. Qed.

(** A frame every 40 ms: the frame at 1000 ms is still counted, the one at
    1040 ms makes the report, prints 25 and is not counted itself. *)
Example frames_every_40ms :
  fps_ticks (mkEnv (fun _ => 0) (fun j => 40000000 * Z.of_N j)
                   (fun _ => None))
            26 (mkRateCounter 0 0) 1
  = (mkRateCounter 1080000000 0, 28%N, [25]).
Proof. vm_compute. reflexivity. Qed.
